(** * github-home-page: the two aggregation handlers

    A shallow embedding of the issue handler ([GET], the Linear route) and of
    the pull-request handler ([onRequest], the GitHub overview function),
    with the properties their specification states about them.

    Conventions of the embedding.
    - JavaScript numbers that the handlers use as integers (priorities,
      HTTP statuses, epoch milliseconds, run ids) are [Z]; a possibly-NaN
      number is [option Z] with [None] for NaN.
    - JavaScript strings are [string]; [null]/[undefined] are [None].
    - The key-value binding [GH_CACHE] is a [gmap string string] holding the
      entries that have not expired.
      It answers every [get] and accepts every [put].
    - A pull-request object carries its identity ([addr]); its [jobs]
      property, the one property assigned after the object is built, is kept
      in the state under that identity, so that two objects for the same
      pull request stay apart.
    - Calls that leave the handler (key-value store, [fetch], GraphQL, REST)
      are recorded in a trace; what the upstream services answer is an
      argument of the handler (its [World]).  A paginated REST listing is
      one call.  Logging ([console.error]) is not recorded. *)

From Stdlib Require Import Ascii Permutation.
From stdpp Require Import base numbers option list sorting strings pretty gmap.

Local Open Scope string_scope.
Local Open Scope Z_scope.

(** ** JavaScript primitives used by the handlers *)

Module JS.

(** [ToBoolean] on a string: only the empty string is falsy. *)
Definition truthy (s : string) : bool :=
  match s with
  | EmptyString => false
  | String _ _ => true
  end.

(** [ToBoolean] on a value that may be [undefined]/[null]. *)
Definition truthy_opt (o : option string) : bool :=
  match o with
  | Some s => truthy s
  | None => false
  end.

(** [a || b] where [a] is a string or [undefined]. *)
Definition or_else (o : option string) (d : string) : string :=
  match o with
  | Some s => if truthy s then s else d
  | None => d
  end.

(** [arr[n]] for a number [n]: [undefined] outside the array. *)
Definition array_get {A} (arr : list A) (n : Z) : option A :=
  if decide (0 ≤ n) then arr !! Z.to_nat n else None.

(** [String.prototype.split(",")]. *)
Fixpoint split_comma (s : string) : list string :=
  match s with
  | EmptyString => [EmptyString]
  | String c r =>
      if Ascii.eqb c ","%char then EmptyString :: split_comma r
      else match split_comma r with
           | h :: t => String c h :: t
           | [] => [String c EmptyString]
           end
  end.

(** White space and line terminators in the ASCII range, as [trim] sees
    them: TAB, LF, VT, FF, CR and SPACE. *)
Definition is_space (c : ascii) : bool :=
  let n := Ascii.nat_of_ascii c in
  ((9 <=? n) && (n <=? 13) || (n =? 32))%nat.

Fixpoint trim_start (s : string) : string :=
  match s with
  | EmptyString => EmptyString
  | String c r => if is_space c then trim_start r else s
  end.

Fixpoint trim_end (s : string) : string :=
  match s with
  | EmptyString => EmptyString
  | String c r =>
      match trim_end r with
      | EmptyString => if is_space c then EmptyString else String c EmptyString
      | r' => String c r'
      end
  end.

(** [String.prototype.trim]. *)
Definition trim (s : string) : string := trim_end (trim_start s).

(** [Array.prototype.join(",")]. *)
Definition join_comma (l : list string) : string := String.concat "," l.

(** No comma in the string. *)
Fixpoint comma_free (s : string) : Prop :=
  match s with
  | EmptyString => True
  | String c r => c ≠ ","%char ∧ comma_free r
  end.

(** [Array.prototype.slice(0, n)]. *)
Definition slice0 {A} (n : nat) (l : list A) : list A := take n l.

(** *** [Map]: keys keep the position of their first insertion *)

Section map.
Context {V : Type}.

(** [Map.prototype.set]: an existing key keeps its place and takes the new
    value; a new key goes to the end. *)
Fixpoint map_set (k : string) (v : V) (m : list (string * V)) : list (string * V) :=
  match m with
  | [] => [(k, v)]
  | (k', v') :: r =>
      if decide (k' = k) then (k', v) :: r else (k', v') :: map_set k v r
  end.

(** [new Map(entries)]: the entries are set one after the other. *)
Definition new_Map (entries : list (string * V)) : list (string * V) :=
  fold_left (λ m e, map_set e.1 e.2 m) entries [].

(** [Array.from(m.values())]. *)
Definition map_values (m : list (string * V)) : list V := m.*2.
End map.

(** *** [Array.prototype.sort] with a comparator

    The comparator's result is a number; a NaN result counts as [+0]
    (SortCompare).  The order of comparisons is up to the engine; for a
    consistent comparator every conforming engine produces the same array,
    the stable sorted one, which is what insertion from the right builds. *)

Section sort.
Context {A : Type} (comparefn : A → A → option Z).

Definition sort_compare (x y : A) : Z := default 0 (comparefn x y).

Fixpoint sort_insert (x : A) (l : list A) : list A :=
  match l with
  | [] => [x]
  | y :: r =>
      if decide (sort_compare x y ≤ 0) then x :: y :: r
      else y :: sort_insert x r
  end.

Definition sort (l : list A) : list A := foldr sort_insert [] l.
End sort.

(** *** JSON values *)

#[local] Unset Elimination Schemes.
Inductive json :=
| JNull
| JBool (b : bool)
| JNum (n : Z)
| JStr (s : string)
| JArr (items : list json)
| JObj (fields : list (string * json)).
#[local] Set Elimination Schemes.

(** [ToBoolean] on a parsed JSON value. *)
Definition json_truthy (j : json) : bool :=
  match j with
  | JNull => false
  | JBool b => b
  | JNum n => negb (n =? 0)
  | JStr s => truthy s
  | JArr _ | JObj _ => true
  end.

(** [Object.keys] of a JSON value. *)
Definition json_keys (j : json) : list string :=
  match j with
  | JObj fields => fields.*1
  | _ => []
  end.

Definition jopt {A} (enc : A → json) (o : option A) : json :=
  match o with
  | Some a => enc a
  | None => JNull
  end.

(** A property whose value is [undefined] is left out by [JSON.stringify]. *)
Definition jfield_opt {A} (k : string) (enc : A → json) (o : option A) : list (string * json) :=
  match o with
  | Some a => [(k, enc a)]
  | None => []
  end.

(** What a [throw] carries: an [Error] with its message, or any other value
    with its [String(...)] image. *)
Inductive thrown :=
| JsError (message : string)
| JsValue (image : string).

(** [error instanceof Error ? error.message : String(error)]. *)
Definition error_details (e : thrown) : string :=
  match e with
  | JsError m => m
  | JsValue s => s
  end.

End JS.
Export JS.


(** ** The platform and the outside world *)

(** How a call ends: it returns a value or throws (for an [async] call: the
    promise is fulfilled or rejected). *)
Inductive outcome (A : Type) :=
| Returned (a : A)
| Threw (e : thrown).
Arguments Returned {A} a.
Arguments Threw {A} e.

(** Built-ins of the JavaScript runtime that the handlers call and whose
    algorithms are not part of this repository. *)
Class Platform := {
  (** [JSON.stringify] on a JSON value. *)
  JSON_stringify : json → string;
  (** [JSON.parse]; it throws a SyntaxError on a malformed text. *)
  JSON_parse : string → outcome json;
  (** [Number(s)]; [None] for NaN. *)
  Number : string → option Z;
  (** [new Date(s).getTime()]; [None] for NaN (an invalid date). *)
  Date_getTime : string → option Z
}.

(** An HTTP response built by a handler.  [new Response(body, init)] has
    status 200 unless [init.status] says otherwise. *)
Module HTTP.
Record Response := {
  status : Z;
  headers : list (string * string);
  body : string
}.
End HTTP.
Abbreviation Response := HTTP.Response.

(** One CI job as attached to a pull request. *)
Record Job := {
  job_name : string;
  job_status : string;
  job_conclusion : option string;
  job_started_at : option string;
  job_html_url : string
}.

(** Calls that leave the handler. *)
Inductive event :=
| KvGet (key : string)
| KvPut (key value : string) (expirationTtl : option Z)
| LinearFetch (authorization : string) (first : Z)
| GithubSearch (q : string) (n : Z)
| ListWorkflowRuns (owner repo : string)
| ListJobs (owner repo : string) (run_id : Z).

(** The calls that go to an upstream API (everything but the cache). *)
Definition is_upstream (e : event) : bool :=
  match e with
  | KvGet _ | KvPut _ _ _ => false
  | _ => true
  end.

Definition upstream_calls (t : list event) : list event :=
  List.filter is_upstream t.

(** What a handler run can change: the cache, the trace of outgoing calls,
    and the [jobs] property of the pull-request objects it has created
    (keyed by object identity; no entry means the property is unset). *)
Record state := {
  kv : gmap string string;
  trace : list event;
  next_addr : nat;
  jobs_of : gmap nat (list Job)
}.

(** The state a request starts in: the cache as it is, nothing called yet,
    no object created yet. *)
Definition fresh (cache : gmap string string) : state :=
  {| kv := cache; trace := []; next_addr := 0; jobs_of := ∅ |}.

(** An [async] computation: it runs on the state and either returns or
    throws (a rejected promise). *)
Definition M (A : Type) : Type := state → state * outcome A.

#[export] Instance M_ret : MRet M := λ A a σ, (σ, Returned a).

#[export] Instance M_bind : MBind M := λ A B f m σ,
  match m σ with
  | (σ', Returned a) => f a σ'
  | (σ', Threw e) => (σ', Threw e)
  end.

Definition throw {A} (e : thrown) : M A := λ σ, (σ, Threw e).

(** [try { m } catch (error) { h error }]. *)
Definition try_catch {A} (m : M A) (h : thrown → M A) : M A := λ σ,
  match m σ with
  | (σ', Returned a) => (σ', Returned a)
  | (σ', Threw e) => h e σ'
  end.

(** Awaiting a call whose result the outside world decides. *)
Definition await {A} (r : outcome A) : M A := λ σ, (σ, r).

Definition emit (e : event) : M unit := λ σ,
  ({| kv := kv σ; trace := trace σ ++ [e];
      next_addr := next_addr σ; jobs_of := jobs_of σ |}, Returned ()).

(** [GH_CACHE.get(key)]: the stored string, or [null]. *)
Definition kv_get (key : string) : M (option string) := λ σ,
  ({| kv := kv σ; trace := trace σ ++ [KvGet key];
      next_addr := next_addr σ; jobs_of := jobs_of σ |},
   Returned (kv σ !! key)).

(** [GH_CACHE.put(key, value, { expirationTtl })]. *)
Definition kv_put (key value : string) (ttl : option Z) : M unit := λ σ,
  ({| kv := <[key := value]> (kv σ); trace := trace σ ++ [KvPut key value ttl];
      next_addr := next_addr σ; jobs_of := jobs_of σ |}, Returned ()).

(** [Promise.all(ps)] over computations that have all been started: every
    one of them runs (in array order here; their interleaving is not
    modelled), and the result rejects with the first rejection if any. *)
Fixpoint Promise_all {A} (ps : list (M A)) : M (list A) :=
  match ps with
  | [] => mret []
  | p :: rest => λ σ,
      match p σ with
      | (σ1, r) =>
          match Promise_all rest σ1 with
          | (σ2, rs) =>
              (σ2, match r, rs with
                   | Returned a, Returned l => Returned (a :: l)
                   | Threw e, _ => Threw e
                   | Returned _, Threw e => Threw e
                   end)
          end
      end
  end.

(** ** The issue handler (Linear route) *)

Module Linear.

Record Status := {
  status_name : string;
  status_type : string;
  status_color : string
}.

Record Priority := {
  value : Z;
  name : string
}.

Record Project := {
  project_name : string;
  project_icon : option string;
  project_color : string
}.

Record Assignee := {
  assignee_name : string;
  assignee_avatarUrl : option string
}.

Record Team := {
  team_name : string;
  team_key : string
}.

Record LinearIssue := {
  id : string;
  identifier : string;
  title : string;
  url : string;
  status : Status;
  priority : option Priority;
  project : option Project;
  assignee : option Assignee;
  createdAt : string;
  updatedAt : string;
  team : Team
}.

(** The [priority] property of an upstream node. *)
Inductive upstream_priority :=
| PriorityUndefined
| PriorityNull
| PriorityNumber (n : Z).

(** A node of [result.data.issues.nodes]. *)
Record Node := {
  node_id : string;
  node_identifier : string;
  node_title : string;
  node_url : string;
  node_createdAt : string;
  node_updatedAt : string;
  node_priority : upstream_priority;
  node_state : Status;
  node_project : option Project;
  node_assignee : option Assignee;
  node_team : Team
}.

(** The parsed body of the GraphQL response: [result.errors] (absent when
    [None]) and [result.data.issues.nodes]; when the latter is not there,
    reading it throws the engine's TypeError. *)
Record Result := {
  errors : option json;
  nodes : outcome (list Node)
}.

(** What [fetch] to the Linear endpoint yields: a rejection, or a response
    with its status and what [response.json()] gives. *)
Record FetchResponse := {
  response_status : Z;
  response_json : outcome Result
}.

(** [response.ok]. *)
Definition ok (r : FetchResponse) : bool :=
  (200 <=? response_status r) && (response_status r <=? 299).

(** The Linear side of a request: the outcome of the one [fetch], and the
    clock read by [new Date().toISOString()]. *)
Record World := {
  fetch_result : outcome FetchResponse;
  now : string
}.

(** Environment variables, as [runtime.env] or [import.meta.env] has them. *)
Record Vars := {
  LINEAR_TOKEN : option string;
  LINEAR_CACHE_TTL : option string
}.

(** [locals.runtime.env]: the variables and whether the [GH_CACHE] binding
    is there. *)
Record RuntimeEnv := {
  vars : Vars;
  GH_CACHE : bool
}.

(** [runtime?.env || import.meta.env]. *)
Definition env_of (runtime_env : option RuntimeEnv) (import_meta_env : Vars) : Vars :=
  from_option vars import_meta_env runtime_env.

(** [runtime?.env?.GH_CACHE], as a truth value. *)
Definition has_cache (runtime_env : option RuntimeEnv) : bool :=
  from_option GH_CACHE false runtime_env.

Definition priority_names : list string :=
  ["No priority"; "Urgent"; "High"; "Normal"; "Low"].

(** The [priority] property of a transformed issue. *)
Definition priority_of (p : upstream_priority) : option Priority :=
  match p with
  | PriorityNumber n =>
      Some {| value := n; name := or_else (array_get priority_names n) "Unknown" |}
  | PriorityUndefined | PriorityNull => None
  end.

(** The callback of [result.data.issues.nodes.map]. *)
Definition transform (issue : Node) : LinearIssue :=
  {| id := node_id issue;
     identifier := node_identifier issue;
     title := node_title issue;
     url := node_url issue;
     status := {| status_name := status_name (node_state issue);
                  status_type := status_type (node_state issue);
                  status_color := status_color (node_state issue) |};
     priority := priority_of (node_priority issue);
     project :=
       match node_project issue with
       | Some p => Some {| project_name := project_name p;
                           project_icon := project_icon p;
                           project_color := project_color p |}
       | None => None
       end;
     assignee :=
       match node_assignee issue with
       | Some a => Some {| assignee_name := assignee_name a;
                           assignee_avatarUrl := assignee_avatarUrl a |}
       | None => None
       end;
     createdAt := node_createdAt issue;
     updatedAt := node_updatedAt issue;
     team := {| team_name := team_name (node_team issue);
                team_key := team_key (node_team issue) |} |}.

(** [aSort] of the comparator: [a.priority?.value ?? 999], with 0 replaced
    by 999. *)
Definition sort_key (a : LinearIssue) : Z :=
  let aPriority := match priority a with Some p => value p | None => 999 end in
  if aPriority =? 0 then 999 else aPriority.

Section handler.
Context `{Platform}.

(** The comparator given to [issues.sort]. *)
Definition compare_issues (a b : LinearIssue) : option Z :=
  let aSort := sort_key a in
  let bSort := sort_key b in
  if negb (aSort =? bSort) then Some (aSort - bSort)
  else
    match Date_getTime (updatedAt b), Date_getTime (updatedAt a) with
    | Some tb, Some ta => Some (tb - ta)
    | _, _ => None
    end.

(** The [issues] array of a fresh payload: transformed, then sorted. *)
Definition issues_of (nodes : list Node) : list LinearIssue :=
  sort compare_issues (transform <$> nodes).

Definition json_of_issue (i : LinearIssue) : json :=
  JObj [("id", JStr (id i));
        ("identifier", JStr (identifier i));
        ("title", JStr (title i));
        ("url", JStr (url i));
        ("status", JObj [("name", JStr (status_name (status i)));
                         ("type", JStr (status_type (status i)));
                         ("color", JStr (status_color (status i)))]);
        ("priority", jopt (λ p, JObj [("value", JNum (value p));
                                      ("name", JStr (name p))]) (priority i));
        ("project", jopt (λ p, JObj [("name", JStr (project_name p));
                                     ("icon", jopt JStr (project_icon p));
                                     ("color", JStr (project_color p))]) (project i));
        ("assignee", jopt (λ a, JObj [("name", JStr (assignee_name a));
                                      ("avatarUrl", jopt JStr (assignee_avatarUrl a))])
                       (assignee i));
        ("createdAt", JStr (createdAt i));
        ("updatedAt", JStr (updatedAt i));
        ("team", JObj [("name", JStr (team_name (team i)));
                       ("key", JStr (team_key (team i)))])].

Definition cacheKey : string := "linear:recent-issues".

Definition missing_token_response : Response :=
  {| HTTP.status := 500;
     HTTP.headers := [("content-type", "application/json")];
     HTTP.body := JSON_stringify (JObj [("error", JStr "Missing LINEAR_TOKEN")]) |}.

Definition hit_response (cached : string) : Response :=
  {| HTTP.status := 200;
     HTTP.headers := [("content-type", "application/json"); ("x-cache", "HIT")];
     HTTP.body := cached |}.

Definition miss_response (jsonData : string) : Response :=
  {| HTTP.status := 200;
     HTTP.headers := [("content-type", "application/json"); ("x-cache", "MISS")];
     HTTP.body := jsonData |}.

Definition error_response (error : thrown) : Response :=
  {| HTTP.status := 500;
     HTTP.headers := [("content-type", "application/json")];
     HTTP.body := JSON_stringify
               (JObj [("error", JStr "Failed to fetch Linear issues");
                      ("details", JStr (error_details error))]) |}.

(** [jsonData]: the serialised [{ generatedAt, issues }] for the nodes
    received. *)
Definition payload (generatedAt : string) (ns : list Node) : string :=
  let issues := issues_of ns in
  let data := JObj [("generatedAt", JStr generatedAt);
                    ("issues", JArr (json_of_issue <$> issues))] in
  JSON_stringify data.

(** [Number(env.LINEAR_CACHE_TTL || "90")]. *)
Definition ttl (env : Vars) : option Z := Number (or_else (LINEAR_CACHE_TTL env) "90").

(** The body of the [try] block. *)
Definition fetch_and_store (w : World) (token : string) (has_cache : bool)
    (ttl : option Z) : M Response :=
  _ ← emit (LinearFetch token 20);
  response ← await (fetch_result w);
  if negb (ok response) then
    throw (JsError ("Linear API error: " +:+ pretty (response_status response)))
  else
    result ← await (response_json response);
    if from_option json_truthy false (errors result) then
      throw (JsError ("Linear GraphQL errors: " +:+
                      from_option JSON_stringify "" (errors result)))
    else
      ns ← await (nodes result);
      let jsonData := payload (now w) ns in
      _ ← (if has_cache then kv_put cacheKey jsonData ttl else mret ());
      mret (miss_response jsonData).

(** The handler.  [runtime_env] is [locals.runtime?.env]; the variables come
    from it when it is there and from [import.meta.env] otherwise, the cache
    binding only from it. *)
Definition GET (runtime_env : option RuntimeEnv) (import_meta_env : Vars)
    (w : World) : M Response :=
  let env := env_of runtime_env import_meta_env in
  let has_cache := has_cache runtime_env in
  if negb (truthy_opt (LINEAR_TOKEN env)) then mret missing_token_response
  else
    let token := default "" (LINEAR_TOKEN env) in
    let ttl := ttl env in
    cached ← (if has_cache then kv_get cacheKey else mret None);
    if truthy_opt cached then mret (hit_response (default "" cached))
    else
      try_catch (fetch_and_store w token has_cache ttl)
                (λ error, mret (error_response error)).

(** The fetch went through: an ok response whose body parses, carries no
    errors and has the nodes [ns]. *)
Definition fetched (w : World) (ns : list Node) : Prop :=
  ∃ r res, fetch_result w = Returned r ∧ ok r = true ∧
           response_json r = Returned res ∧
           from_option json_truthy false (errors res) = false ∧
           nodes res = Returned ns.


End handler.
End Linear.

(** ** The pull-request handler (GitHub overview) *)

Module Overview.

Record Env := {
  GITHUB_TOKEN : option string;
  GH_QUERY_ORGS : option string;
  GH_PINNED_REPOS : option string;
  GH_CACHE : bool;
  GH_CACHE_TTL : option string
}.

Record Repo := {
  repo_owner : string;
  repo_name : string;
  repo_url : string
}.

Record Author := {
  author_login : string;
  author_avatarUrl : string;
  author_url : string
}.

Record Label := {
  label_name : string;
  label_color : string
}.

(** An entry of [status.checks], tagged by [kind]. *)
Inductive CheckEntry :=
| CheckRun (name status conclusion detailsUrl : option string)
| StatusContext (name state targetUrl : option string).

Record Status := {
  rollup : option string;
  checks : list CheckEntry
}.

(** A pull-request object.  [addr] is the identity of the object; its
    optional [jobs] property, the only one assigned after construction, is
    kept in the state under that identity. *)
Record PRBasic := {
  addr : nat;
  id : string;
  number : Z;
  title : string;
  url : string;
  repo : Repo;
  author : option Author;
  updatedAt : string;
  createdAt : string;
  isDraft : bool;
  labels : list Label;
  headSha : option string;
  status : Status
}.

(** A node of [statusCheckRollup.contexts.nodes]. *)
Record RawContext := {
  typename : string;
  ctx_name : option string;
  ctx_status : option string;
  ctx_conclusion : option string;
  ctx_detailsUrl : option string;
  ctx_context : option string;
  ctx_state : option string;
  ctx_targetUrl : option string
}.

Record RawRollup := {
  rollup_state : option string;
  contexts_nodes : option (list RawContext)
}.

Record RawCommit := {
  oid : option string;
  statusCheckRollup : option RawRollup
}.

(** A node of [res.search.nodes]. *)
Record RawPR := {
  raw_id : string;
  raw_number : Z;
  raw_title : string;
  raw_url : string;
  raw_createdAt : string;
  raw_updatedAt : string;
  raw_isDraft : bool;
  raw_repository : Repo;
  raw_author : option Author;
  raw_labels_nodes : option (list Label);
  (** [commits?.nodes], each node with its [commit] *)
  raw_commits_nodes : option (list (option RawCommit))
}.

(** A workflow run as the REST API lists it; [pull_requests] holds the
    numbers of the associated pull requests when it is an array. *)
Record WorkflowRun := {
  run_id : Z;
  head_sha : string;
  pull_requests : option (list Z)
}.

Record RawJob := {
  raw_job_name : string;
  raw_job_status : option string;
  raw_job_conclusion : option string;
  raw_job_started_at : option string;
  raw_job_html_url : string
}.

(** The GitHub side of a request: what each call answers, and the clock. *)
Record World := {
  (** [octokit.graphql(gql, { q, n })]: [res.search.nodes], possibly null;
      the client rejects on a non-success HTTP status and on a GraphQL
      error payload *)
  search : string → Z → outcome (option (list RawPR));
  (** [octokit.paginate(listWorkflowRunsForRepo, ...)] *)
  workflow_runs : string → string → outcome (list WorkflowRun);
  (** [octokit.paginate(listJobsForWorkflowRun, ...)] *)
  workflow_jobs : string → string → Z → outcome (list RawJob);
  now : string
}.

Record Queries := {
  q_mine : string;
  q_review : string;
  q_assigned : string
}.

Record Buckets := {
  mine : list PRBasic;
  review : list PRBasic;
  assigned : list PRBasic
}.

(** [(env.GH_QUERY_ORGS || "").split(",").map(s => s.trim()).filter(Boolean)]. *)
Definition scopeOrgs (env : Env) : list string :=
  filter (λ s, truthy s = true) (trim <$> split_comma (or_else (GH_QUERY_ORGS env) "")).

(** [`overview:${scopeOrgs.join(",") || "all"}`]. *)
Definition cacheKey (scopeOrgs : list string) : string :=
  "overview:" +:+ or_else (Some (join_comma scopeOrgs)) "all".

(** What a scope list is made of: non-empty names without a comma. *)
Definition org_name (s : string) : Prop := truthy s = true ∧ comma_free s.

Definition buildQueries (org : option string) : Queries :=
  let orgFilter := if truthy_opt org then " org:" +:+ default "" org else "" in
  {| q_mine := "is:pr is:open author:@me sort:updated-desc" +:+ orgFilter;
     q_review := "is:pr is:open review-requested:@me sort:updated-desc" +:+ orgFilter;
     q_assigned := "is:pr is:open assignee:@me sort:updated-desc" +:+ orgFilter |}.

(** [scopeOrgs.length > 0 ? scopeOrgs : [undefined]]. *)
Definition orgsToQuery (scopeOrgs : list string) : list (option string) :=
  match scopeOrgs with
  | [] => [None]
  | _ :: _ => Some <$> scopeOrgs
  end.

Definition check_of (c : RawContext) : CheckEntry :=
  if decide (typename c = "CheckRun")
  then CheckRun (ctx_name c) (ctx_status c) (ctx_conclusion c) (ctx_detailsUrl c)
  else StatusContext (ctx_context c) (ctx_state c) (ctx_targetUrl c).

(** The callback of [(res.search.nodes ?? []).map] in [fetchBucket], for the
    object created at address [a]. *)
Definition normalize (a : nat) (pr : RawPR) : PRBasic :=
  let commit := head (default [] (raw_commits_nodes pr)) ≫= (λ n, n) in
  let roll := commit ≫= statusCheckRollup in
  let contexts := default [] (roll ≫= contexts_nodes) in
  {| addr := a;
     id := raw_id pr;
     number := raw_number pr;
     title := raw_title pr;
     url := raw_url pr;
     repo := {| repo_owner := repo_owner (raw_repository pr);
                repo_name := repo_name (raw_repository pr);
                repo_url := repo_url (raw_repository pr) |};
     author :=
       match raw_author pr with
       | Some a => Some {| author_login := author_login a;
                           author_url := author_url a;
                           author_avatarUrl := author_avatarUrl a |}
       | None => None
       end;
     updatedAt := raw_updatedAt pr;
     createdAt := raw_createdAt pr;
     isDraft := raw_isDraft pr;
     labels := (λ l, {| label_name := label_name l; label_color := label_color l |})
                 <$> default [] (raw_labels_nodes pr);
     headSha := commit ≫= oid;
     status := {| rollup := roll ≫= rollup_state;
                  checks := check_of <$> contexts |} |}.

(** Building the objects of one bucket: the nodes get consecutive fresh
    identities. *)
Definition alloc_bucket (nodes : list RawPR) : M (list PRBasic) := λ σ,
  ({| kv := kv σ; trace := trace σ;
      next_addr := (next_addr σ + length nodes)%nat; jobs_of := jobs_of σ |},
   Returned (imap (λ i pr, normalize (next_addr σ + i)%nat pr) nodes)).

Definition fetchBucket (w : World) (q : string) : M (list PRBasic) :=
  _ ← emit (GithubSearch q 20);
  res ← await (search w q 20);
  alloc_bucket (default [] res).

(** The callback of [orgsToQuery.map]. *)
Definition fetchOrg (w : World) (org : option string) : M Buckets :=
  let queries := buildQueries org in
  rs ← Promise_all [fetchBucket w (q_mine queries);
                    fetchBucket w (q_review queries);
                    fetchBucket w (q_assigned queries)];
  mret {| mine := default [] (rs !! 0%nat);
          review := default [] (rs !! 1%nat);
          assigned := default [] (rs !! 2%nat) |}.

(** [Array.from(new Map(prs.map(pr => [pr.id, pr])).values())]. *)
Definition dedupe (prs : list PRBasic) : list PRBasic :=
  map_values (new_Map ((λ pr, (id pr, pr)) <$> prs)).

(** Combining the per-org results, bucket by bucket. *)
Definition combine (allResults : list Buckets) : Buckets :=
  {| mine := dedupe (allResults ≫= mine);
     review := dedupe (allResults ≫= review);
     assigned := dedupe (allResults ≫= assigned) |}.

(** [[...mine, ...review, ...assigned]
       .filter(p => p.status.rollup === "PENDING").slice(0, 8)]. *)
Definition running (b : Buckets) : list PRBasic :=
  slice0 8 (filter (λ p, rollup (status p) = Some "PENDING")
                   (mine b ++ review b ++ assigned b)%list).

(** The test of the filter, and the filtered array before [slice]. *)
Definition pending (p : PRBasic) : Prop := rollup (status p) = Some "PENDING".

Definition candidates (b : Buckets) : list PRBasic :=
  filter pending (mine b ++ review b ++ assigned b)%list.

(** [pr.jobs = jobs]. *)
Definition set_jobs (pr : PRBasic) (jobs : list Job) : M unit := λ σ,
  ({| kv := kv σ; trace := trace σ; next_addr := next_addr σ;
      jobs_of := <[addr pr := jobs]> (jobs_of σ) |}, Returned ()).

(** The predicate of [runs.find]. *)
Definition run_matches (pr : PRBasic) (r : WorkflowRun) : bool :=
  bool_decide (Some (head_sha r) = headSha pr) ||
  match pull_requests r with
  | Some xs => existsb (λ x, x =? number pr) xs
  | None => false
  end.

Definition job_of (j : RawJob) : Job :=
  {| job_name := raw_job_name j;
     job_status := default "queued" (raw_job_status j);
     job_conclusion := raw_job_conclusion j;
     job_started_at := raw_job_started_at j;
     job_html_url := raw_job_html_url j |}.

Definition attachJobs (w : World) (pr : PRBasic) : M unit :=
  if negb (truthy_opt (headSha pr)) then mret ()
  else
    let owner := repo_owner (repo pr) in
    let name := repo_name (repo pr) in
    _ ← emit (ListWorkflowRuns owner name);
    runs ← await (workflow_runs w owner name);
    match List.find (run_matches pr) runs with
    | None => mret ()
    | Some run =>
        _ ← emit (ListJobs owner name (run_id run));
        jobs ← await (workflow_jobs w owner name (run_id run));
        set_jobs pr (job_of <$> jobs)
    end.

(** The same object with another [headSha]. *)
Definition with_headSha (h : option string) (p : PRBasic) : PRBasic :=
  {| addr := addr p; id := id p; number := number p; title := title p;
     url := url p; repo := repo p; author := author p;
     updatedAt := updatedAt p; createdAt := createdAt p; isDraft := isDraft p;
     labels := labels p; headSha := h; status := status p |}.

Definition map_buckets (f : PRBasic → PRBasic) (b : Buckets) : Buckets :=
  {| mine := f <$> mine b; review := f <$> review b; assigned := f <$> assigned b |}.

(** Everything a per-org result holds. *)
Definition all_of (b : Buckets) : list PRBasic :=
  (mine b ++ review b ++ assigned b)%list.

(** The searches of one pass over [orgs]. *)
Definition search_calls (orgs : list (option string)) : list event :=
  orgs ≫= λ org,
    [GithubSearch (q_mine (buildQueries org)) 20;
     GithubSearch (q_review (buildQueries org)) 20;
     GithubSearch (q_assigned (buildQueries org)) 20].

(** The REST calls [attachJobs] makes for [pr]. *)
Definition attach_calls (w : World) (pr : PRBasic) : list event :=
  if negb (truthy_opt (headSha pr)) then []
  else
    let owner := repo_owner (repo pr) in
    let name := repo_name (repo pr) in
    ListWorkflowRuns owner name ::
    match workflow_runs w owner name with
    | Returned runs =>
        match List.find (run_matches pr) runs with
        | Some run => [ListJobs owner name (run_id run)]
        | None => []
        end
    | Threw _ => []
    end.

(** Every upstream call is answered. *)
Definition healthy (w : World) : Prop :=
  (∀ q n, ∃ r, search w q n = Returned r) ∧
  (∀ owner name, ∃ runs, workflow_runs w owner name = Returned runs) ∧
  (∀ owner name i, ∃ jobs, workflow_jobs w owner name i = Returned jobs).

(** The objects of [l] were created between [σ] and [σ']: their
    identities are pairwise distinct and were handed out in between. *)
Definition created (σ σ' : state) (l : list PRBasic) : Prop :=
  NoDup (addr <$> l) ∧ ∀ p, p ∈ l → (next_addr σ ≤ addr p < next_addr σ')%nat.

(** The calls to [listWorkflowRunsForRepo] in a trace. *)
Definition runs_listings (t : list event) : list event :=
  List.filter (λ e, match e with ListWorkflowRuns _ _ => true | _ => false end) t.

(** [m] makes the calls [te], leaves the cache and the [jobs] properties
    alone, and creates the objects [f a] of its result [a]. *)
Definition fetches {A} (m : M A) (te : list event) (f : A → list PRBasic) : Prop :=
  ∀ σ, trace (m σ).1 = (trace σ ++ te)%list ∧
       kv (m σ).1 = kv σ ∧ jobs_of (m σ).1 = jobs_of σ ∧
       (next_addr σ ≤ next_addr (m σ).1)%nat ∧
       ∀ a, (m σ).2 = Returned a → created σ (m σ).1 (f a).

(** [m] makes the calls [te], leaves the cache alone, creates no object
    and assigns [jobs] only on the objects at [addrs]. *)
Definition enriches {A} (m : M A) (te : list event) (addrs : list nat) : Prop :=
  ∀ σ, trace (m σ).1 = (trace σ ++ te)%list ∧
       kv (m σ).1 = kv σ ∧ next_addr (m σ).1 = next_addr σ ∧
       ∀ a, a ∉ addrs → jobs_of (m σ).1 !! a = jobs_of σ !! a.


Section handler.
Context `{Platform}.

(** [okJSON(data, init)] with [init.headers] given and no [init.status]. *)
Definition okJSON (data : json) (init_headers : list (string * string)) : Response :=
  {| HTTP.status := 200;
     HTTP.headers := ("content-type", "application/json; charset=utf-8") :: init_headers;
     HTTP.body := JSON_stringify data |}.

Definition json_of_check (c : CheckEntry) : json :=
  match c with
  | CheckRun name status conclusion detailsUrl =>
      JObj [("kind", JStr "CheckRun"); ("name", jopt JStr name);
            ("status", jopt JStr status); ("conclusion", jopt JStr conclusion);
            ("detailsUrl", jopt JStr detailsUrl)]
  | StatusContext name state targetUrl =>
      JObj [("kind", JStr "StatusContext"); ("name", jopt JStr name);
            ("state", jopt JStr state); ("targetUrl", jopt JStr targetUrl)]
  end.

Definition json_of_job (j : Job) : json :=
  JObj [("name", JStr (job_name j)); ("status", JStr (job_status j));
        ("conclusion", jopt JStr (job_conclusion j));
        ("started_at", jopt JStr (job_started_at j));
        ("html_url", JStr (job_html_url j))].

(** A pull-request object as [JSON.stringify] sees it when the [jobs]
    properties are [jobs]: the property is left out when it is unset. *)
Definition json_of_pr (jobs : gmap nat (list Job)) (pr : PRBasic) : json :=
  JObj ([("id", JStr (id pr));
         ("number", JNum (number pr));
         ("title", JStr (title pr));
         ("url", JStr (url pr));
         ("repo", JObj [("owner", JStr (repo_owner (repo pr)));
                        ("name", JStr (repo_name (repo pr)));
                        ("url", JStr (repo_url (repo pr)))]);
         ("author", jopt (λ a, JObj [("login", JStr (author_login a));
                                     ("url", JStr (author_url a));
                                     ("avatarUrl", JStr (author_avatarUrl a))])
                      (author pr));
         ("updatedAt", JStr (updatedAt pr));
         ("createdAt", JStr (createdAt pr));
         ("isDraft", JBool (isDraft pr));
         ("labels", JArr ((λ l, JObj [("name", JStr (label_name l));
                                      ("color", JStr (label_color l))])
                            <$> labels pr));
         ("headSha", jopt JStr (headSha pr));
         ("status", JObj [("rollup", jopt JStr (rollup (status pr)));
                          ("checks", JArr (json_of_check <$> checks (status pr)))])]
        ++ jfield_opt "jobs" (λ js, JArr (json_of_job <$> js)) (jobs !! addr pr)).

(** [{ generatedAt, scopeOrgs, buckets: { review, mine, assigned } }]. *)
Definition json_of_data (jobs : gmap nat (list Job)) (generatedAt : string)
    (scopeOrgs : list string) (b : Buckets) : json :=
  JObj [("generatedAt", JStr generatedAt);
        ("scopeOrgs", JArr (JStr <$> scopeOrgs));
        ("buckets", JObj [("review", JArr (json_of_pr jobs <$> review b));
                          ("mine", JArr (json_of_pr jobs <$> mine b));
                          ("assigned", JArr (json_of_pr jobs <$> assigned b))])].

(** Reading the [jobs] properties when the payload is serialised. *)
Definition read_jobs : M (gmap nat (list Job)) := λ σ, (σ, Returned (jobs_of σ)).

(** From the searches to the enriched buckets: the per-org results are
    combined, the running pull requests get their jobs, and the [jobs]
    properties are what the serialisation will read. *)
Definition build (w : World) (scopeOrgs : list string)
    : M (Buckets * gmap nat (list Job)) :=
  allResults ← Promise_all (fetchOrg w <$> orgsToQuery scopeOrgs);
  let buckets := combine allResults in
  _ ← Promise_all (attachJobs w <$> running buckets);
  jobs ← read_jobs;
  mret (buckets, jobs).

(** [Number(env.GH_CACHE_TTL || "90")]. *)
Definition ttl (env : Env) : option Z := Number (or_else (GH_CACHE_TTL env) "90").

(** The part of the handler after the cache read. *)
Definition fetch_and_store (w : World) (scopeOrgs : list string)
    (has_cache : bool) (cacheKey : string) (ttl : option Z) : M Response :=
  '(buckets, jobs) ← build w scopeOrgs;
  let data := json_of_data jobs (now w) scopeOrgs buckets in
  _ ← (if has_cache then kv_put cacheKey (JSON_stringify data) ttl else mret ());
  mret (okJSON data [("x-cache", "MISS")]).

Definition onRequest (env : Env) (w : World) : M Response :=
  if negb (truthy_opt (GITHUB_TOKEN env)) then
    mret {| HTTP.status := 500; HTTP.headers := []; HTTP.body := "Missing GITHUB_TOKEN" |}
  else
    let scopeOrgs := scopeOrgs env in
    let ttl := ttl env in
    let cacheKey := cacheKey scopeOrgs in
    cached ← (if GH_CACHE env then kv_get cacheKey else mret None);
    if truthy_opt cached then
      data ← await (JSON_parse (default "" cached));
      mret (okJSON data [("x-cache", "HIT")])
    else fetch_and_store w scopeOrgs (GH_CACHE env) cacheKey ttl.

End handler.
End Overview.

(** ** The specification's vocabulary *)

Module Spec.

(** The display name of a priority integer, as the specification lists
    them: 0 to 4 have a name, every other integer is unknown. *)
Definition priority_name (n : Z) : string :=
  match n with
  | 0 => "No priority"
  | 1 => "Urgent"
  | 2 => "High"
  | 3 => "Normal"
  | 4 => "Low"
  | _ => "Unknown"
  end.

(** The priority object of an issue: none for an absent upstream priority. *)
Definition priority_of (p : Linear.upstream_priority) : option Linear.Priority :=
  match p with
  | Linear.PriorityNumber n =>
      Some {| Linear.value := n; Linear.name := priority_name n |}
  | _ => None
  end.

(** The effective priority rank: 999 for priority 0 or no priority, the
    priority value otherwise. *)
Definition rank (i : Linear.LinearIssue) : Z :=
  match Linear.priority i with
  | None => 999
  | Some p => match Linear.value p with 0 => 999 | n => n end
  end.

(** [a] was updated no earlier than [b]. *)
Definition updated_no_earlier `{Platform} (a b : Linear.LinearIssue) : Prop :=
  ∀ ta tb, Date_getTime (Linear.updatedAt a) = Some ta →
           Date_getTime (Linear.updatedAt b) = Some tb → tb ≤ ta.

(** The [updatedAt] of [i] denotes a time. *)
Definition dated `{Platform} (i : Linear.LinearIssue) : Prop :=
  is_Some (Date_getTime (Linear.updatedAt i)).

(** The order the issues are to be listed in: by rank, and by recency
    within a rank. *)
Definition listed_before `{Platform} (a b : Linear.LinearIssue) : Prop :=
  rank a < rank b ∨ (rank a = rank b ∧ updated_no_earlier a b).

(** The distinct keys of a list in the order they are first seen. *)
Fixpoint first_occurrences (l : list string) : list string :=
  match l with
  | [] => []
  | x :: r => x :: filter (λ y, y ≠ x) (first_occurrences r)
  end.

(** [output] merges [input] by pull-request id: one entry per id, in the
    order the ids are first seen, each entry being the last one seen for
    its id. *)
Definition merged_by_id (input output : list Overview.PRBasic) : Prop :=
  NoDup (Overview.id <$> output) ∧
  Overview.id <$> output = first_occurrences (Overview.id <$> input) ∧
  (∀ i, i ∈ Overview.id <$> output ↔ i ∈ Overview.id <$> input) ∧
  (∀ pr, pr ∈ output →
     last (filter (λ q, Overview.id q = Overview.id pr) input) = Some pr).

End Spec.

(** ** Sample inputs *)

Module Sample.

Definition quote : string := String (Ascii.ascii_of_nat 34) EmptyString.

(** A plain JSON printer (no escaping), enough for the sample data. *)
Fixpoint print (j : json) : string :=
  match j with
  | JNull => "null"
  | JBool b => if b then "true" else "false"
  | JNum n => pretty n
  | JStr s => quote +:+ s +:+ quote
  | JArr items =>
      "[" +:+ String.concat "," (List.map print items) +:+ "]"
  | JObj fields =>
      "{" +:+ String.concat ","
                (List.map (λ kv, quote +:+ kv.1 +:+ quote +:+ ":" +:+ print kv.2) fields)
          +:+ "}"
  end.

Definition T1 : string := "2024-05-01T10:00:00.000Z".
Definition T2 : string := "2024-05-02T10:00:00.000Z".
Definition T3 : string := "2024-05-03T10:00:00.000Z".

(** A cached overview payload and its text. *)
Definition cached_overview : json :=
  JObj [("generatedAt", JStr T3); ("scopeOrgs", JArr []);
        ("buckets", JObj [("review", JArr []); ("mine", JArr []);
                          ("assigned", JArr [])])].

Definition platform : Platform := {|
  JSON_stringify := print;
  JSON_parse := λ s,
    if decide (s = print cached_overview) then Returned cached_overview
    else Threw (JsError "Unexpected token in JSON");
  Number := λ s, if decide (s = "90") then Some 90 else None;
  Date_getTime := λ s,
    if decide (s = T1) then Some 1714557600000
    else if decide (s = T2) then Some 1714644000000
    else if decide (s = T3) then Some 1714730400000
    else None
|}.

(** *** Issues *)

Definition node (key : string) (p : Linear.upstream_priority) (updated : string)
    : Linear.Node :=
  {| Linear.node_id := "id-" +:+ key;
     Linear.node_identifier := key;
     Linear.node_title := "Issue " +:+ key;
     Linear.node_url := "https://linear.app/issue/" +:+ key;
     Linear.node_createdAt := T1;
     Linear.node_updatedAt := updated;
     Linear.node_priority := p;
     Linear.node_state := {| Linear.status_name := "Todo";
                             Linear.status_type := "unstarted";
                             Linear.status_color := "#aaa" |};
     Linear.node_project := None;
     Linear.node_assignee := None;
     Linear.node_team := {| Linear.team_name := "Core"; Linear.team_key := "COR" |} |}.

(** The specification's example: A is High and older, B has priority 0 and
    is newer. *)
Definition A : Linear.Node := node "A" (Linear.PriorityNumber 2) T2.
Definition B : Linear.Node := node "B" (Linear.PriorityNumber 0) T3.
Definition nodes : list Linear.Node := [B; A].

Definition linear_env : option Linear.RuntimeEnv :=
  Some {| Linear.vars := {| Linear.LINEAR_TOKEN := Some "lin_api_key";
                            Linear.LINEAR_CACHE_TTL := None |};
          Linear.GH_CACHE := true |}.

(** The same deployment with the token missing. *)
Definition linear_env_no_token : option Linear.RuntimeEnv :=
  Some {| Linear.vars := {| Linear.LINEAR_TOKEN := None;
                            Linear.LINEAR_CACHE_TTL := None |};
          Linear.GH_CACHE := true |}.

Definition no_vars : Linear.Vars :=
  {| Linear.LINEAR_TOKEN := None; Linear.LINEAR_CACHE_TTL := None |}.

(** Linear answers with the two issues. *)
Definition linear_up : Linear.World :=
  {| Linear.fetch_result :=
       Returned {| Linear.response_status := 200;
                   Linear.response_json :=
                     Returned {| Linear.errors := None;
                                 Linear.nodes := Returned nodes |} |};
     Linear.now := T3 |}.

(** Linear answers 503. *)
Definition linear_down : Linear.World :=
  {| Linear.fetch_result :=
       Returned {| Linear.response_status := 503;
                   Linear.response_json := Threw (JsError "Unexpected token") |};
     Linear.now := T3 |}.

(** *** Pull requests *)

Definition raw_pr (n : Z) (sha : option string) (state : option string)
    : Overview.RawPR :=
  {| Overview.raw_id := "PR_" +:+ pretty n;
     Overview.raw_number := n;
     Overview.raw_title := "Change " +:+ pretty n;
     Overview.raw_url := "https://github.com/acme/app/pull/" +:+ pretty n;
     Overview.raw_createdAt := T1;
     Overview.raw_updatedAt := T2;
     Overview.raw_isDraft := false;
     Overview.raw_repository :=
       {| Overview.repo_owner := "acme"; Overview.repo_name := "app";
          Overview.repo_url := "https://github.com/acme/app" |};
     Overview.raw_author := None;
     Overview.raw_labels_nodes := Some [];
     Overview.raw_commits_nodes :=
       Some [Some {| Overview.oid := sha;
                     Overview.statusCheckRollup :=
                       Some {| Overview.rollup_state := state;
                               Overview.contexts_nodes := Some [] |} |}] |}.

(** PR 5 is pending with a head commit; PR 6 is pending and has none. *)
Definition pr5 : Overview.RawPR := raw_pr 5 (Some "abc123") (Some "PENDING").
Definition pr6 : Overview.RawPR := raw_pr 6 None (Some "PENDING").
Definition pr7 : Overview.RawPR := raw_pr 7 (Some "def456") (Some "SUCCESS").

Definition overview_env (orgs : option string) : Overview.Env :=
  {| Overview.GITHUB_TOKEN := Some "ghp_token";
     Overview.GH_QUERY_ORGS := orgs;
     Overview.GH_PINNED_REPOS := None;
     Overview.GH_CACHE := true;
     Overview.GH_CACHE_TTL := None |}.

(** GitHub answers: PR 5 and PR 6 are mine, PR 5 also awaits my review;
    the run for PR 5 has one job. *)
Definition github_up : Overview.World :=
  {| Overview.search := λ q n,
       if decide (q = Overview.q_mine (Overview.buildQueries None))
       then Returned (Some [pr5; pr6])
       else if decide (q = Overview.q_review (Overview.buildQueries None))
       then Returned (Some [pr5])
       else Returned (Some []);
     Overview.workflow_runs := λ owner name,
       Returned [ {| Overview.run_id := 77; Overview.head_sha := "abc123";
                     Overview.pull_requests := Some [5] |} ];
     Overview.workflow_jobs := λ owner name i,
       Returned [ {| Overview.raw_job_name := "build";
                     Overview.raw_job_status := Some "in_progress";
                     Overview.raw_job_conclusion := None;
                     Overview.raw_job_started_at := Some T2;
                     Overview.raw_job_html_url := "https://github.com/acme/app/runs/77" |} ];
     Overview.now := T3 |}.

(** GitHub has nothing to report. *)
Definition github_quiet : Overview.World :=
  {| Overview.search := λ q n, Returned (Some []);
     Overview.workflow_runs := λ owner name, Returned [];
     Overview.workflow_jobs := λ owner name i, Returned [];
     Overview.now := T3 |}.

(** GitHub rejects every call. *)
Definition github_down : Overview.World :=
  {| Overview.search := λ q n, Threw (JsError "Bad credentials");
     Overview.workflow_runs := λ owner name, Threw (JsError "Bad credentials");
     Overview.workflow_jobs := λ owner name i, Threw (JsError "Bad credentials");
     Overview.now := T3 |}.

(** The results of two org scopes that both return PR 5 as mine. *)
Definition two_scopes : list Overview.Buckets :=
  [ {| Overview.mine := [Overview.normalize 0 pr5];
       Overview.review := [Overview.normalize 1 pr5];
       Overview.assigned := [] |};
    {| Overview.mine := [Overview.normalize 2 pr7; Overview.normalize 3 pr5];
       Overview.review := [];
       Overview.assigned := [] |} ].

(** What the handler builds from [github_up] without an org scope. *)
Definition built : state * outcome (Overview.Buckets * gmap nat (list Job)) :=
  Overview.build github_up [] (fresh ∅).

Definition built_buckets : Overview.Buckets :=
  match built.2 with
  | Returned (b, _) => b
  | Threw _ => {| Overview.mine := []; Overview.review := []; Overview.assigned := [] |}
  end.

Definition built_jobs : gmap nat (list Job) :=
  match built.2 with
  | Returned (_, jobs) => jobs
  | Threw _ => ∅
  end.

(** The object made for PR 6 in the bucket "mine". *)
Definition pr6_mine : Overview.PRBasic := Overview.normalize 1 pr6.

End Sample.

(** The calls to the cache in a trace. *)
Definition cache_calls (t : list event) : list event :=
  List.filter (λ e, negb (is_upstream e)) t.

(** What the search [q] found: the nodes of its result, none when the
    result has no node list or the call is rejected. *)
Definition found (w : Overview.World) (q : string) : list Overview.RawPR :=
  match Overview.search w q 20 with
  | Returned r => default [] r
  | Threw _ => []
  end.

(** More sample inputs. *)
Module More.
Import Sample.

(** Two issues of the same priority updated at the same time, then A. *)
Definition C : Linear.Node := node "C" (Linear.PriorityNumber 3) T1.
Definition D : Linear.Node := node "D" (Linear.PriorityNumber 3) T1.
Definition tied : list Linear.Node := [C; D; A].

(** A local run: no runtime, the token in [import.meta.env]. *)
Definition local_vars : Linear.Vars :=
  {| Linear.LINEAR_TOKEN := Some "lin_api_key"; Linear.LINEAR_CACHE_TTL := None |}.

(** Linear cannot be reached. *)
Definition linear_unreachable : Linear.World :=
  {| Linear.fetch_result := Threw (JsError "fetch failed"); Linear.now := T3 |}.

(** The same deployment as [overview_env] without the cache binding. *)
Definition overview_env_no_cache : Overview.Env :=
  {| Overview.GITHUB_TOKEN := Some "ghp_token";
     Overview.GH_QUERY_ORGS := None;
     Overview.GH_PINNED_REPOS := None;
     Overview.GH_CACHE := false;
     Overview.GH_CACHE_TTL := None |}.

(** GitHub answers the searches as in [github_up] and rejects the listing
    of workflow runs. *)
Definition github_runs_down : Overview.World :=
  {| Overview.search := Overview.search github_up;
     Overview.workflow_runs := λ owner name, Threw (JsError "Server Error");
     Overview.workflow_jobs := Overview.workflow_jobs github_up;
     Overview.now := T3 |}.

(** GitHub lists one run, of another commit and another pull request. *)
Definition other_run : Overview.WorkflowRun :=
  {| Overview.run_id := 78; Overview.head_sha := "zzz999";
     Overview.pull_requests := Some [99] |}.

Definition github_other_runs : Overview.World :=
  {| Overview.search := Overview.search github_up;
     Overview.workflow_runs := λ owner name, Returned [other_run];
     Overview.workflow_jobs := Overview.workflow_jobs github_up;
     Overview.now := T3 |}.

(** The run and the job that [github_up] lists. *)
Definition run77 : Overview.WorkflowRun :=
  {| Overview.run_id := 77; Overview.head_sha := "abc123";
     Overview.pull_requests := Some [5] |}.

Definition job77 : Overview.RawJob :=
  {| Overview.raw_job_name := "build";
     Overview.raw_job_status := Some "in_progress";
     Overview.raw_job_conclusion := None;
     Overview.raw_job_started_at := Some T2;
     Overview.raw_job_html_url := "https://github.com/acme/app/runs/77" |}.

(** The searches of an unscoped request on [github_runs_down], run. *)
Definition searched : state * outcome (list Overview.Buckets) :=
  Promise_all (Overview.fetchOrg github_runs_down <$> Overview.orgsToQuery [])
              (fresh ∅).

Definition searched_results : list Overview.Buckets :=
  match searched.2 with
  | Returned rs => rs
  | Threw _ => []
  end.

(** The object made for PR 5 in the bucket "mine". *)
Definition pr5_mine : Overview.PRBasic := Overview.normalize 0 pr5.

(** A search node that carries no commit. *)
Definition pr8 : Overview.RawPR :=
  {| Overview.raw_id := "PR_8";
     Overview.raw_number := 8;
     Overview.raw_title := "Change 8";
     Overview.raw_url := "https://github.com/acme/app/pull/8";
     Overview.raw_createdAt := T1;
     Overview.raw_updatedAt := T2;
     Overview.raw_isDraft := true;
     Overview.raw_repository :=
       {| Overview.repo_owner := "acme"; Overview.repo_name := "app";
          Overview.repo_url := "https://github.com/acme/app" |};
     Overview.raw_author := None;
     Overview.raw_labels_nodes := None;
     Overview.raw_commits_nodes := Some [] |}.

End More.

(** ** Facts about the primitives *)

Lemma bind_run {A B} (m : M A) (f : A → M B) σ :
  (m ≫= f) σ =
  match m σ with
  | (σ', Returned a) => f a σ'
  | (σ', Threw e) => (σ', Threw e)
  end.
Proof. done. Qed.

Ltac mrun := repeat (rewrite bind_run; simpl); simpl.


Section sort_facts.
Context {A : Type} (comparefn : A → A → option Z).

Lemma sort_insert_perm x l : sort_insert comparefn x l ≡ₚ x :: l.
Proof.
  induction l as [|y r IH]; simpl; [done|].
  case_decide; [done|]. rewrite IH. apply Permutation_swap.
Qed.

Lemma sort_perm l : sort comparefn l ≡ₚ l.
Proof.
  induction l as [|x l IH]; simpl; [done|].
  rewrite sort_insert_perm. by f_equiv.
Qed.

(** Insertion keeps an order [R] that the comparator decides on the
    elements satisfying [P]. *)
Lemma sort_insert_sorted (P : A → Prop) (R : A → A → Prop) :
  (∀ x y z, P x → P y → P z → R x y → R y z → R x z) →
  (∀ x y, P x → P y → sort_compare comparefn x y ≤ 0 → R x y) →
  (∀ x y, P x → P y → ¬ sort_compare comparefn x y ≤ 0 → R y x) →
  ∀ x l, P x → Forall P l → StronglySorted R l →
         StronglySorted R (sort_insert comparefn x l).
Proof.
  intros Htrans Hle Hgt x l Px.
  induction l as [|y r IH]; intros HP Hs; simpl.
  - repeat constructor.
  - apply Forall_cons in HP as [Py HPr].
    apply StronglySorted_cons in Hs as [Hy Hr].
    case_decide as Hc.
    + apply StronglySorted_cons. split.
      * constructor; [by apply Hle|].
        rewrite Forall_forall in Hy, HPr |- *. intros z Hz.
        apply (Htrans x y z); auto.
      * by apply StronglySorted_cons.
    + apply StronglySorted_cons. split; [|by apply IH].
      rewrite sort_insert_perm. constructor; [by apply Hgt|done].
Qed.

Lemma sort_sorted (P : A → Prop) (R : A → A → Prop) :
  (∀ x y z, P x → P y → P z → R x y → R y z → R x z) →
  (∀ x y, P x → P y → sort_compare comparefn x y ≤ 0 → R x y) →
  (∀ x y, P x → P y → ¬ sort_compare comparefn x y ≤ 0 → R y x) →
  ∀ l, Forall P l → StronglySorted R (sort comparefn l).
Proof.
  intros Htrans Hle Hgt l.
  induction l as [|x l IH]; intros HP; simpl; [constructor|].
  apply Forall_cons in HP as [Px HPl].
  apply (sort_insert_sorted P R); auto.
  by rewrite sort_perm.
Qed.
End sort_facts.

(** ** The issue handler: priority names and the sort *)

Section linear_facts.
Context `{Platform}.
Import Linear.

Lemma array_get_priority_names n :
  or_else (array_get priority_names n) "Unknown" = Spec.priority_name n.
Proof.
  unfold array_get. case_decide as Hn.
  - destruct n as [|p|p]; [done| |lia].
    destruct (decide (Z.pos p ≤ 4)) as [Hp|Hp].
    + assert (Z.pos p = 1 ∨ Z.pos p = 2 ∨ Z.pos p = 3 ∨ Z.pos p = 4) as Hc by lia.
      destruct Hc as [->|[->|[->| ->]]]; reflexivity.
    + assert (priority_names !! Z.to_nat (Z.pos p) = None) as ->.
      { apply lookup_ge_None. simpl length. lia. }
      destruct p as [[[|[]|]|[|[]|]|]|[[|[]|]|[|[]|]|]|]; (done || lia).
  - destruct n; (done || lia).
Qed.

(** C7. The priority object of every transformed issue: the names of 0 to 4
    come from the fixed table, every other integer gets "Unknown", and an
    absent (null or undefined) priority gives no priority object. *)
Theorem priority_display_name (issue : Node) :
  priority (transform issue) = Spec.priority_of (node_priority issue).
Proof.
  unfold transform, priority_of; simpl.
  destruct (node_priority issue) as [| |n]; simpl; [done..|].
  by rewrite array_get_priority_names.
Qed.

Lemma sort_key_rank i : sort_key i = Spec.rank i.
Proof.
  unfold sort_key, Spec.rank.
  destruct (priority i) as [p|]; [|done]. by destruct (value p).
Qed.

Lemma compare_issues_le x y :
  Spec.dated x → Spec.dated y →
  sort_compare compare_issues x y ≤ 0 → Spec.listed_before x y.
Proof.
  intros [tx Hx] [ty Hy]. unfold sort_compare, compare_issues, Spec.listed_before.
  rewrite <- !sort_key_rank, Hx, Hy.
  destruct (Z.eqb_spec (sort_key x) (sort_key y)) as [He|Hne]; simpl; intros Hc.
  - right. split; [done|]. intros ta tb. rewrite Hx, Hy. intros [= <-] [= <-]. lia.
  - left. lia.
Qed.

Lemma compare_issues_gt x y :
  Spec.dated x → Spec.dated y →
  ¬ sort_compare compare_issues x y ≤ 0 → Spec.listed_before y x.
Proof.
  intros [tx Hx] [ty Hy]. unfold sort_compare, compare_issues, Spec.listed_before.
  rewrite <- !sort_key_rank, Hx, Hy.
  destruct (Z.eqb_spec (sort_key x) (sort_key y)) as [He|Hne]; simpl; intros Hc.
  - right. split; [done|]. intros ta tb. rewrite Hx, Hy. intros [= <-] [= <-]. lia.
  - left. lia.
Qed.

Lemma listed_before_trans x y z :
  Spec.dated x → Spec.dated y → Spec.dated z →
  Spec.listed_before x y → Spec.listed_before y z → Spec.listed_before x z.
Proof.
  intros _ [ty Hy] _. unfold Spec.listed_before.
  intros [Hxy|[Hxy Txy]] [Hyz|[Hyz Tyz]]; [left; lia..|].
  right. split; [lia|]. intros ta tc Ha Hc.
  specialize (Txy ta ty Ha Hy). specialize (Tyz ty tc Hy Hc). lia.
Qed.

Lemma compare_issues_rank_le x y :
  sort_compare compare_issues x y ≤ 0 → Spec.rank x ≤ Spec.rank y.
Proof.
  unfold sort_compare, compare_issues. rewrite <- !sort_key_rank.
  destruct (Z.eqb_spec (sort_key x) (sort_key y)); simpl; lia.
Qed.

Lemma compare_issues_rank_gt x y :
  ¬ sort_compare compare_issues x y ≤ 0 → Spec.rank y ≤ Spec.rank x.
Proof.
  unfold sort_compare, compare_issues. rewrite <- !sort_key_rank.
  destruct (Z.eqb_spec (sort_key x) (sort_key y)); simpl; lia.
Qed.

(** C1. The [issues] array of a fresh payload holds the transformed nodes,
    in ascending order of effective rank (999 for priority 0 or none, the
    value otherwise); when every [updatedAt] denotes a time, issues of equal
    rank come latest update first. *)
Theorem issues_sorted (ns : list Node) :
  issues_of ns ≡ₚ transform <$> ns ∧
  StronglySorted (λ a b, Spec.rank a ≤ Spec.rank b) (issues_of ns) ∧
  (Forall (λ n, is_Some (Date_getTime (node_updatedAt n))) ns →
   StronglySorted Spec.listed_before (issues_of ns)).
Proof.
  unfold issues_of. split_and!.
  - apply sort_perm.
  - apply (sort_sorted _ (λ _, True)).
    + intros; lia.
    + intros x y _ _. apply compare_issues_rank_le.
    + intros x y _ _. apply compare_issues_rank_gt.
    + by apply Forall_true.
  - intros Hd. apply (sort_sorted _ Spec.dated).
    + apply listed_before_trans.
    + apply compare_issues_le.
    + apply compare_issues_gt.
    + apply Forall_fmap. eapply Forall_impl; [exact Hd|]. by intros n.
Qed.

End linear_facts.

(** ** [Map] facts *)

Lemma first_occurrences_elem_of l x : x ∈ Spec.first_occurrences l ↔ x ∈ l.
Proof.
  induction l as [|y r IH]; simpl; [done|].
  rewrite !elem_of_cons, list_elem_of_filter, IH.
  destruct (decide (x = y)); naive_solver.
Qed.

Lemma first_occurrences_NoDup l : NoDup (Spec.first_occurrences l).
Proof.
  induction l as [|y r IH]; simpl; constructor.
  - rewrite list_elem_of_filter. naive_solver.
  - by apply NoDup_filter.
Qed.

Lemma first_occurrences_snoc l k :
  Spec.first_occurrences (l ++ [k]) =
  if decide (k ∈ l) then Spec.first_occurrences l
  else (Spec.first_occurrences l ++ [k])%list.
Proof.
  induction l as [|y r IH]; simpl; [done|].
  rewrite IH. destruct (decide (k ∈ y :: r)) as [Hin|Hnin].
  - apply elem_of_cons in Hin as [->|Hin].
    + f_equal. case_decide; [done|].
      rewrite filter_app, filter_cons_False, filter_nil, app_nil_r; naive_solver.
    + by rewrite decide_True.
  - apply not_elem_of_cons in Hnin as [Hne Hnin].
    rewrite decide_False by done.
    by rewrite filter_app, filter_cons_True, filter_nil by done.
Qed.

Section map_facts.
Context {V : Type}.
Implicit Types (m es : list (string * V)).

Lemma map_set_keys k v m :
  (map_set k v m).*1 = if decide (k ∈ m.*1) then m.*1 else (m.*1 ++ [k])%list.
Proof.
  induction m as [|[k' v'] r IH]; [done|]. simpl map_set.
  destruct (decide (k' = k)) as [->|Hne]; csimpl.
  - rewrite decide_True by left. done.
  - rewrite IH. destruct (decide (k ∈ r.*1)) as [Hin|Hnin].
    + rewrite decide_True by by right. done.
    + rewrite decide_False; [done|]. rewrite elem_of_cons. naive_solver.
Qed.

Lemma map_set_elem_of k v m k' v' :
  NoDup m.*1 →
  (k', v') ∈ map_set k v m ↔ (k' = k ∧ v' = v) ∨ (k' ≠ k ∧ (k', v') ∈ m).
Proof.
  induction m as [|[k0 v0] r IH]; simpl map_set; csimpl; intros Hnd.
  - rewrite list_elem_of_singleton, elem_of_nil. naive_solver.
  - apply NoDup_cons in Hnd as [Hk0 Hnd].
    destruct (decide (k0 = k)) as [->|Hne].
    + rewrite !elem_of_cons. split.
      * intros [[= -> ->]|Hin]; [by left|].
        right. split; [|by right]. intros ->. apply Hk0.
        by apply (list_elem_of_fmap_2 fst) in Hin.
      * intros [[-> ->]|[Hne [[= -> ->]|Hin]]]; [by left|done|by right].
    + rewrite !elem_of_cons, IH by done. naive_solver.
Qed.

Lemma new_Map_snoc es k v :
  new_Map (es ++ [(k, v)])%list = map_set k v (new_Map es).
Proof. unfold new_Map. by rewrite fold_left_app. Qed.

Lemma new_Map_keys es : (new_Map es).*1 = Spec.first_occurrences es.*1.
Proof.
  induction es as [|[k v] es IH] using rev_ind; [done|].
  rewrite new_Map_snoc, map_set_keys, fmap_app, IH. csimpl.
  rewrite first_occurrences_snoc. destruct (decide (k ∈ es.*1)).
  - rewrite decide_True; [done|]. by apply first_occurrences_elem_of.
  - rewrite decide_False; [done|]. by rewrite first_occurrences_elem_of.
Qed.

(** Last seen wins. *)
Lemma new_Map_elem_of es k v :
  (k, v) ∈ new_Map es → last (filter (λ e, e.1 = k) es) = Some (k, v).
Proof.
  revert k v. induction es as [|[k0 v0] es IH] using rev_ind; intros k v.
  - by intros ?%elem_of_nil.
  - rewrite new_Map_snoc, map_set_elem_of, filter_app.
    2:{ rewrite new_Map_keys. apply first_occurrences_NoDup. }
    intros [[-> ->]|[Hne Hin]].
    + rewrite filter_cons_True, filter_nil by done. apply last_snoc.
    + rewrite filter_cons_False, filter_nil, app_nil_r by (simpl; congruence).
      by apply IH.
Qed.


End map_facts.

Lemma filter_fmap {A B} (f : A → B) (P : B → Prop) `{!∀ y, Decision (P y)}
    (l : list A) :
  filter P (f <$> l) = f <$> filter (λ x, P (f x)) l.
Proof.
  induction l as [|x l IH]; [done|]. csimpl.
  rewrite !filter_cons, IH. by case_decide.
Qed.

(** ** The pull-request handler: merging and selecting *)

Section overview_pure.
Import Overview.

Lemma dedupe_entries prs k v :
  (k, v) ∈ new_Map ((λ pr, (id pr, pr)) <$> prs) →
  k = id v ∧ last (filter (λ q, id q = id v) prs) = Some v.
Proof.
  intros Hin%new_Map_elem_of. rewrite filter_fmap, fmap_last in Hin.
  simpl in Hin. destruct (last _) as [q|] eqn:Hq; simplify_eq/=.
  split; [done|]. by rewrite <- Hq.
Qed.

Lemma dedupe_ids prs : id <$> dedupe prs = Spec.first_occurrences (id <$> prs).
Proof.
  unfold dedupe, map_values.
  set (m := new_Map _).
  assert (∀ e, e ∈ m → e.1 = id e.2) as Hm.
  { intros [k v] Hin. by apply dedupe_entries in Hin as [-> _]. }
  transitivity (m.*1).
  - rewrite <- list_fmap_compose. apply list_fmap_ext.
    intros i e He. symmetry. apply Hm. by eapply list_elem_of_lookup_2.
  - unfold m. rewrite new_Map_keys. by rewrite <- list_fmap_compose.
Qed.

Lemma dedupe_merged prs : Spec.merged_by_id prs (dedupe prs).
Proof.
  unfold Spec.merged_by_id. rewrite dedupe_ids. split_and!.
  - apply first_occurrences_NoDup.
  - done.
  - apply first_occurrences_elem_of.
  - intros pr Hin. unfold dedupe, map_values in Hin.
    apply list_elem_of_fmap in Hin as ([k v] & -> & Hin).
    by apply dedupe_entries in Hin as [_ ?].
Qed.

Lemma dedupe_subseteq prs : dedupe prs ⊆ prs.
Proof.
  intros pr Hin. destruct (dedupe_merged prs) as (_ & _ & _ & Hlast).
  apply Hlast, last_Some in Hin as [l' Hl'].
  assert (pr ∈ filter (λ q, id q = id pr) prs) as Hf.
  { rewrite Hl'. apply elem_of_app. right. left. }
  by apply list_elem_of_filter in Hf as [_ ?].
Qed.

(** C4. In the combined result every bucket is its own per-org lists merged
    by pull-request id: each id once, in order of first appearance, with the
    entry seen last; an id found in the lists of two buckets is kept in both
    merged buckets. *)
Theorem buckets_merged_by_id (allResults : list Buckets) :
  let b := combine allResults in
  Spec.merged_by_id (allResults ≫= mine) (mine b) ∧
  Spec.merged_by_id (allResults ≫= review) (review b) ∧
  Spec.merged_by_id (allResults ≫= assigned) (assigned b) ∧
  (∀ i, i ∈ id <$> (allResults ≫= mine) → i ∈ id <$> (allResults ≫= review) →
        i ∈ id <$> mine b ∧ i ∈ id <$> review b).
Proof.
  simpl. split_and!; try apply dedupe_merged.
  intros i Hm Hr.
  destruct (dedupe_merged (allResults ≫= mine)) as (_ & _ & Hm' & _).
  destruct (dedupe_merged (allResults ≫= review)) as (_ & _ & Hr' & _).
  split; [by apply Hm'|by apply Hr'].
Qed.

Lemma running_candidates b : running b = take 8 (candidates b).
Proof. done. Qed.

(** The selection is a prefix of the pending entries of the concatenated
    buckets, and holds at most 8 of them. *)
Lemma running_selection (b : Buckets) :
  running b `sublist_of` (mine b ++ review b ++ assigned b)%list ∧
  running b `prefix_of` filter pending (mine b ++ review b ++ assigned b)%list ∧
  Forall (λ p, rollup (status p) = Some "PENDING") (running b) ∧
  (length (running b) ≤ 8)%nat.
Proof.
  rewrite running_candidates. unfold candidates. split_and!.
  - etrans; [apply sublist_take|apply sublist_filter].
  - apply prefix_take.
  - apply Forall_take, Forall_forall. intros p Hp.
    by apply list_elem_of_filter in Hp as [? _].
  - rewrite length_take. lia.
Qed.

End overview_pure.
(** ** The issue handler: tokens, cache and failures *)

Lemma upstream_calls_app t1 t2 :
  upstream_calls (t1 ++ t2) = (upstream_calls t1 ++ upstream_calls t2)%list.
Proof. apply List.filter_app. Qed.

Section linear_handler.
Context `{Platform}.
Import Linear.

Lemma GET_missing_token runtime_env import_meta_env w σ :
  truthy_opt (LINEAR_TOKEN (env_of runtime_env import_meta_env)) = false →
  GET runtime_env import_meta_env w σ = (σ, Returned missing_token_response).
Proof. intros Ht. unfold GET. by rewrite Ht. Qed.

Lemma GET_hit runtime_env import_meta_env w σ cached :
  truthy_opt (LINEAR_TOKEN (env_of runtime_env import_meta_env)) = true →
  has_cache runtime_env = true →
  kv σ !! cacheKey = Some cached → truthy cached = true →
  let r := GET runtime_env import_meta_env w σ in
  r.2 = Returned (hit_response cached) ∧
  trace r.1 = (trace σ ++ [KvGet cacheKey])%list ∧ kv r.1 = kv σ.
Proof.
  intros Ht Hc Hkv Htr. unfold GET. rewrite Ht, Hc. simpl.
  unfold mbind, M_bind, kv_get. rewrite Hkv. simpl. by rewrite Htr.
Qed.

Lemma GET_miss runtime_env import_meta_env w σ ns :
  let env := env_of runtime_env import_meta_env in
  truthy_opt (LINEAR_TOKEN env) = true →
  has_cache runtime_env = true →
  truthy_opt (kv σ !! cacheKey) = false →
  fetched w ns →
  let jsonData := payload (now w) ns in
  let r := GET runtime_env import_meta_env w σ in
  r.2 = Returned (miss_response jsonData) ∧
  trace r.1 = (trace σ ++ [KvGet cacheKey;
                           LinearFetch (default "" (LINEAR_TOKEN env)) 20;
                           KvPut cacheKey jsonData (ttl env)])%list ∧
  kv r.1 = <[cacheKey := jsonData]> (kv σ).
Proof.
  intros env Ht Hc Hkv (r & res & Hf & Hok & Hj & He & Hn). unfold GET.
  fold env. rewrite Ht, Hc. simpl.
  unfold mbind, M_bind, kv_get, try_catch, fetch_and_store. simpl.
  rewrite Hkv. simpl.
  unfold mbind, M_bind, await, emit, kv_put. simpl.
  rewrite Hf, Hok. simpl. rewrite Hj, He, Hn. simpl.
  by rewrite <- !app_assoc.
Qed.



End linear_handler.

(** ** The pull-request handler: the fetch and enrichment phases *)

Section overview_phases.
Import Overview.

Lemma created_app σ σ1 σ2 l1 l2 :
  (next_addr σ ≤ next_addr σ1)%nat → (next_addr σ1 ≤ next_addr σ2)%nat →
  created σ σ1 l1 → created σ1 σ2 l2 → created σ σ2 (l1 ++ l2).
Proof.
  intros H1 H2 [Hn1 Hr1] [Hn2 Hr2]. split.
  - rewrite fmap_app. apply NoDup_app. split_and!; [done| |done].
    intros a (p & -> & Hp)%list_elem_of_fmap (q & Hq & Hq')%list_elem_of_fmap.
    apply Hr1 in Hp. apply Hr2 in Hq'. lia.
  - intros p [Hp|Hp]%elem_of_app; [apply Hr1 in Hp|apply Hr2 in Hp]; lia.
Qed.

Lemma created_nil σ σ' : created σ σ' [].
Proof. split; [constructor|]. by intros p ?%elem_of_nil. Qed.

Lemma alloc_addrs n (nodes : list RawPR) :
  addr <$> imap (λ i pr, normalize (n + i)%nat pr) nodes = seq n (length nodes).
Proof.
  revert n. induction nodes as [|x l IH]; intros n; [done|]. csimpl.
  rewrite Nat.add_0_r. f_equal. rewrite <- IH. f_equal.
  apply imap_ext. intros i y _. simpl. f_equal. lia.
Qed.

Lemma fetchBucket_fetches w q : fetches (fetchBucket w q) [GithubSearch q 20] (λ l, l).
Proof.
  intros σ. unfold fetchBucket, mbind, M_bind, emit, await, alloc_bucket. simpl.
  destruct (search w q 20) as [res|e]; simpl; split_and!; try done; try lia.
  intros a [= <-]. split.
  - rewrite alloc_addrs. apply NoDup_seq.
  - intros p (i & x & -> & Hi)%elem_of_lookup_imap. simpl.
    apply lookup_lt_Some in Hi. lia.
Qed.


Lemma Promise_all_fetches {A} (f : A → list PRBasic) (ps : list (M A)) ts :
  Forall2 (λ p te, fetches p te f) ps ts →
  fetches (Promise_all ps) (concat ts) (λ rs, rs ≫= f).
Proof.
  induction 1 as [|p te ps ts Hp _ IH]; intros σ.
  - simpl. rewrite app_nil_r. split_and!; try done.
    intros a [= <-]. apply created_nil.
  - simpl. destruct (Hp σ) as (Ht & Hk & Hj & Hn & Hc).
    destruct (p σ) as [σ1 r] eqn:Hpσ. simpl in *.
    destruct (IH σ1) as (Ht' & Hk' & Hj' & Hn' & Hc').
    destruct (Promise_all ps σ1) as [σ2 rs] eqn:Hps. simpl in *.
    split_and!; try congruence; try lia.
    + by rewrite Ht', Ht, app_assoc.
    + intros l Hl. destruct r as [a|e]; [|done]. destruct rs as [l'|e]; [|done].
      simplify_eq. csimpl. apply (created_app σ σ1 σ2); auto.
Qed.

Lemma Promise_all_length {A} (ps : list (M A)) σ rs :
  (Promise_all ps σ).2 = Returned rs → length rs = length ps.
Proof.
  revert σ rs. induction ps as [|p ps IH]; intros σ rs; simpl.
  - by intros [= <-].
  - destruct (p σ) as [σ1 r]. specialize (IH σ1).
    destruct (Promise_all ps σ1) as [σ2 rs']. simpl in *.
    destruct r, rs'; intros [= <-]. simpl. f_equal. by apply IH.
Qed.

Lemma fetchOrg_fetches w org : fetches (fetchOrg w org) (search_calls [org]) all_of.
Proof.
  intros σ. unfold fetchOrg.
  set (qs := buildQueries org).
  set (ps := [fetchBucket w (q_mine qs); fetchBucket w (q_review qs);
              fetchBucket w (q_assigned qs)]).
  assert (fetches (Promise_all ps) (search_calls [org]) (λ rs, rs ≫= λ l, l)) as Hall.
  { apply (Promise_all_fetches (λ l, l) ps
      [[GithubSearch (q_mine qs) 20]; [GithubSearch (q_review qs) 20];
       [GithubSearch (q_assigned qs) 20]]).
    do 3 (constructor; [apply fetchBucket_fetches|]). constructor. }
  destruct (Hall σ) as (Ht & Hk & Hj & Hn & Hc).
  pose proof (Promise_all_length ps σ) as Hlen.
  rewrite bind_run. destruct (Promise_all ps σ) as [σ' [rs|e]]; simpl in *;
    split_and!; try done.
  intros b [= <-]. specialize (Hc rs eq_refl). specialize (Hlen rs eq_refl).
  destruct rs as [|l1 [|l2 [|l3 [|]]]]; simplify_eq/=.
  unfold all_of; simpl. by rewrite app_nil_r in Hc.
Qed.

Lemma search_calls_concat orgs :
  concat ((λ org, search_calls [org]) <$> orgs) = search_calls orgs.
Proof.
  induction orgs as [|o orgs IH]; [done|].
  rewrite fmap_cons, concat_cons, IH.
  unfold search_calls. rewrite !bind_cons. by rewrite app_nil_r.
Qed.

Lemma fetch_phase_fetches w orgs :
  fetches (Promise_all (fetchOrg w <$> orgs)) (search_calls orgs) (λ rs, rs ≫= all_of).
Proof.
  pose proof (Promise_all_fetches all_of (fetchOrg w <$> orgs)
                ((λ org, search_calls [org]) <$> orgs)) as Hall.
  rewrite search_calls_concat in Hall. apply Hall.
  apply Forall2_fmap, Forall_Forall2_diag, Forall_forall.
  intros org _. apply fetchOrg_fetches.
Qed.


Lemma bind_all_of rs :
  rs ≫= all_of ≡ₚ ((rs ≫= mine) ++ (rs ≫= review) ++ (rs ≫= assigned))%list.
Proof.
  induction rs as [|b rs IH]; [done|].
  rewrite !bind_cons, IH. unfold all_of. solve_Permutation.
Qed.

Lemma NoDup_fmap_inj_on {A B} (f : A → B) (l : list A) x y :
  NoDup (f <$> l) → x ∈ l → y ∈ l → f x = f y → x = y.
Proof.
  induction l as [|z l IH]; csimpl; [by intros _ ?%elem_of_nil|].
  intros [Hz Hl]%NoDup_cons [->|Hx]%elem_of_cons [->|Hy]%elem_of_cons Hf; auto.
  - destruct Hz. rewrite Hf. by apply list_elem_of_fmap_2.
  - destruct Hz. rewrite <- Hf. by apply list_elem_of_fmap_2.
Qed.

(** Merging keeps the objects apart: the combined buckets hold pairwise
    distinct objects, all of them created by the searches. *)
Lemma combine_created σ σ' rs :
  created σ σ' (rs ≫= all_of) → created σ σ' (all_of (combine rs)).
Proof.
  intros [Hnd Hr]. rewrite bind_all_of in Hnd.
  set (L := ((rs ≫= mine) ++ (rs ≫= review) ++ (rs ≫= assigned))%list) in *.
  assert (all_of (combine rs) ⊆ L) as Hsub.
  { unfold all_of, combine, L; simpl.
    intros p [Hp|[Hp|Hp]%elem_of_app]%elem_of_app;
      apply dedupe_subseteq in Hp; set_solver. }
  split.
  - apply NoDup_fmap_2_strong.
    + intros x y Hx Hy. apply (NoDup_fmap_inj_on addr L); auto.
    + apply NoDup_fmap_1 in Hnd. unfold L in Hnd.
      apply NoDup_app in Hnd as (_ & Hmr & Hnd).
      apply NoDup_app in Hnd as (_ & Hra & _).
      assert (∀ l, NoDup (dedupe l)) as Hd.
      { intros l. destruct (dedupe_merged l) as [Hids _].
        by apply NoDup_fmap_1 in Hids. }
      unfold all_of, combine; simpl. apply NoDup_app. split_and!; [done| |].
      * intros x Hx%dedupe_subseteq [Hx'%dedupe_subseteq|Hx'%dedupe_subseteq]%elem_of_app;
          apply (Hmr x Hx); set_solver.
      * apply NoDup_app. split_and!; [done| |done].
        intros x Hx%dedupe_subseteq Hx'%dedupe_subseteq. by apply (Hra x).
  - intros p Hp. apply Hr. rewrite bind_all_of. by apply Hsub.
Qed.


Lemma attachJobs_enriches w pr :
  enriches (attachJobs w pr) (attach_calls w pr)
           (if truthy_opt (headSha pr) then [addr pr] else []).
Proof.
  intros σ. unfold attachJobs, attach_calls.
  destruct (truthy_opt (headSha pr)); simpl.
  2:{ by rewrite app_nil_r. }
  mrun. destruct (workflow_runs w _ _) as [runs|e]; mrun; [|done].
  destruct (List.find _ runs) as [run|]; mrun; [|done].
  destruct (workflow_jobs w _ _ _) as [jobs|e]; mrun.
  - rewrite <- app_assoc. split_and!; try done.
    intros a Ha. rewrite lookup_insert_ne; [done|]. set_solver.
  - by rewrite <- app_assoc.
Qed.

Lemma enrich_phase_enriches w l :
  enriches (Promise_all (attachJobs w <$> l)) (l ≫= attach_calls w)
           (addr <$> filter (λ p, truthy_opt (headSha p) = true) l).
Proof.
  induction l as [|p l IH]; intros σ.
  - simpl. by rewrite app_nil_r.
  - rewrite fmap_cons, bind_cons. simpl Promise_all.
    destruct (attachJobs_enriches w p σ) as (Ht & Hk & Hn & Hj).
    destruct (attachJobs w p σ) as [σ1 r]. simpl in *.
    destruct (IH σ1) as (Ht' & Hk' & Hn' & Hj').
    destruct (Promise_all _ σ1) as [σ2 rs]. simpl in *.
    split_and!; try congruence.
    + by rewrite Ht', Ht, app_assoc.
    + intros a Ha. rewrite filter_cons in Ha.
      rewrite Hj', Hj; [done| |].
      * destruct (truthy_opt (headSha p)); [|set_solver].
        rewrite decide_True in Ha by done. set_solver.
      * case_decide; set_solver.
Qed.

Lemma Promise_all_returns {A} (ps : list (M A)) :
  (∀ p, p ∈ ps → ∀ σ, ∃ a, (p σ).2 = Returned a) →
  ∀ σ, ∃ l, (Promise_all ps σ).2 = Returned l.
Proof.
  induction ps as [|p ps IH]; intros Hps σ; simpl; [by eexists|].
  destruct (Hps p ltac:(left) σ) as [a Ha].
  destruct (p σ) as [σ1 r]. simpl in Ha. subst r.
  destruct (IH ltac:(intros q Hq; apply Hps; by right) σ1) as [l Hl].
  destruct (Promise_all ps σ1) as [σ2 rs]. simpl in *. subst rs. by eexists.
Qed.

Lemma Promise_all_throws {A} (ps : list (M A)) p :
  p ∈ ps → (∀ σ, ∃ e, (p σ).2 = Threw e) →
  ∀ σ, ∃ e, (Promise_all ps σ).2 = Threw e.
Proof.
  intros Hin Hp. induction ps as [|q ps IH]; intros σ; simpl.
  - by apply elem_of_nil in Hin.
  - destruct (q σ) as [σ1 r] eqn:Hq.
    destruct (Promise_all ps σ1) as [σ2 rs] eqn:Hps. simpl.
    apply elem_of_cons in Hin as [<-|Hin].
    + destruct (Hp σ) as [e He]. rewrite Hq in He. simpl in He. subst r.
      by eexists.
    + destruct (IH Hin σ1) as [e He]. rewrite Hps in He. simpl in He. subst rs.
      destruct r; by eexists.
Qed.

Lemma fetchBucket_healthy w q σ :
  healthy w → ∃ l, (fetchBucket w q σ).2 = Returned l.
Proof.
  intros (Hs & _). unfold fetchBucket. mrun.
  destruct (Hs q 20) as [r ->]. mrun. by eexists.
Qed.

Lemma fetchOrg_healthy w org σ :
  healthy w → ∃ b, (fetchOrg w org σ).2 = Returned b.
Proof.
  intros Hw. unfold fetchOrg. rewrite bind_run.
  set (ps := [fetchBucket w (q_mine (buildQueries org));
              fetchBucket w (q_review (buildQueries org));
              fetchBucket w (q_assigned (buildQueries org))]).
  assert (∀ σ, ∃ l, (Promise_all ps σ).2 = Returned l) as Hall.
  { apply Promise_all_returns. intros p Hp σ'.
    repeat (apply elem_of_cons in Hp as [->|Hp]);
      [by apply fetchBucket_healthy..|by apply elem_of_nil in Hp]. }
  destruct (Hall σ) as [l Hl].
  destruct (Promise_all ps σ) as [σ' rs]. simpl in Hl. subst rs. by eexists.
Qed.

Lemma attachJobs_healthy w pr σ :
  healthy w → ∃ u, (attachJobs w pr σ).2 = Returned u.
Proof.
  intros (_ & Hr & Hj). unfold attachJobs.
  destruct (truthy_opt (headSha pr)); simpl; [|by eexists].
  mrun.
  destruct (Hr (repo_owner (repo pr)) (repo_name (repo pr))) as [runs ->]. mrun.
  destruct (List.find _ runs) as [run|]; mrun; [|by eexists].
  destruct (Hj (repo_owner (repo pr)) (repo_name (repo pr)) (run_id run)) as [jobs ->].
  mrun. by eexists.
Qed.

Lemma runs_listings_app t1 t2 :
  runs_listings (t1 ++ t2) = (runs_listings t1 ++ runs_listings t2)%list.
Proof. apply List.filter_app. Qed.

Lemma search_calls_upstream orgs :
  Forall (λ e, is_upstream e = true) (search_calls orgs) ∧
  runs_listings (search_calls orgs) = [].
Proof.
  unfold search_calls. induction orgs as [|o orgs [IH1 IH2]]; [done|].
  rewrite bind_cons. split.
  - apply Forall_app. split; [by repeat constructor|done].
  - by rewrite runs_listings_app, IH2.
Qed.

Lemma attach_calls_upstream w l :
  Forall (λ e, is_upstream e = true) (l ≫= attach_calls w) ∧
  (length (runs_listings (l ≫= attach_calls w)) ≤ length l)%nat.
Proof.
  induction l as [|p l [IH1 IH2]]; [done|].
  rewrite bind_cons. split.
  - apply Forall_app. split; [|done]. unfold attach_calls.
    destruct (negb _); [constructor|]. constructor; [done|].
    destruct (workflow_runs _ _ _); [|constructor].
    destruct (List.find _ _); by repeat constructor.
  - rewrite runs_listings_app, length_app. simpl length.
    assert (length (runs_listings (attach_calls w p)) ≤ 1)%nat; [|lia].
    unfold attach_calls. destruct (negb _); [simpl; lia|]. simpl.
    destruct (workflow_runs _ _ _); [|simpl; lia].
    destruct (List.find _ _); simpl; lia.
Qed.


Lemma build_run w scopes σ :
  let r := build w scopes σ in
  kv r.1 = kv σ ∧
  (∃ t, trace r.1 = (trace σ ++ search_calls (orgsToQuery scopes) ++ t)%list ∧
        Forall (λ e, is_upstream e = true) t ∧
        (length (runs_listings t) ≤ 8)%nat) ∧
  (∀ b jobs, r.2 = Returned (b, jobs) →
     jobs = jobs_of r.1 ∧ created σ r.1 (all_of b) ∧
     ∀ a, a ∉ addr <$> filter (λ p, truthy_opt (headSha p) = true) (running b) →
          jobs !! a = jobs_of σ !! a) ∧
  (healthy w → ∃ b jobs, r.2 = Returned (b, jobs)).
Proof.
  unfold build. rewrite bind_run.
  destruct (fetch_phase_fetches w (orgsToQuery scopes) σ) as (Ht & Hk & Hj & Hn & Hc).
  assert (healthy w → ∃ rs,
    (Promise_all (fetchOrg w <$> orgsToQuery scopes) σ).2 = Returned rs) as Hret.
  { intros Hw. apply Promise_all_returns.
    intros p (org & -> & _)%list_elem_of_fmap σ'. by apply fetchOrg_healthy. }
  destruct (Promise_all (fetchOrg w <$> _) σ) as [σ1 [rs|e]]; simpl in *.
  2:{ split_and!; [done| |done|by intros [? ?]%Hret].
      exists []. rewrite app_nil_r. by split_and!; [|constructor|simpl; lia]. }
  clear Hret. specialize (Hc rs eq_refl). apply combine_created in Hc.
  set (b := combine rs) in *. rewrite bind_run.
  destruct (enrich_phase_enriches w (running b) σ1) as (Ht' & Hk' & Hn' & Hj').
  assert (healthy w → ∃ us,
    (Promise_all (attachJobs w <$> running b) σ1).2 = Returned us) as Hret.
  { intros Hw. apply Promise_all_returns.
    intros p (pr & -> & _)%list_elem_of_fmap σ'. by apply attachJobs_healthy. }
  destruct (attach_calls_upstream w (running b)) as [Hup Hlen].
  assert (length (running b) ≤ 8)%nat as H8 by apply running_selection.
  destruct (Promise_all (attachJobs w <$> running b) σ1) as [σ2 [us|e]];
    simpl in *.
  - split_and!; [congruence| | |by eauto].
    + eexists. rewrite Ht', Ht, <- app_assoc. split_and!; [done..|lia].
    + intros ? ? [= <- <-]. split_and!; [done| |].
      * destruct Hc as [Hnd Hr]. split; [done|]. intros p Hp. rewrite Hn'. auto.
      * intros a Ha. rewrite Hj' by done. by rewrite Hj.
  - split_and!; [congruence| |done|by intros [? ?]%Hret].
    eexists. rewrite Ht', Ht, <- app_assoc. split_and!; [done..|lia].
Qed.

End overview_phases.

(** ** The pull-request handler: tokens, cache and failures *)

Section overview_handler.
Context `{Platform}.
Import Overview.

Lemma onRequest_missing_token env w σ :
  truthy_opt (GITHUB_TOKEN env) = false →
  onRequest env w σ =
  (σ, Returned {| HTTP.status := 500; HTTP.headers := [];
                  HTTP.body := "Missing GITHUB_TOKEN" |}).
Proof. intros Ht. unfold onRequest. by rewrite Ht. Qed.

Lemma onRequest_hit env w σ cached data :
  truthy_opt (GITHUB_TOKEN env) = true →
  GH_CACHE env = true →
  kv σ !! cacheKey (scopeOrgs env) = Some cached → truthy cached = true →
  JSON_parse cached = Returned data →
  let r := onRequest env w σ in
  r.2 = Returned (okJSON data [("x-cache", "HIT")]) ∧
  trace r.1 = (trace σ ++ [KvGet (cacheKey (scopeOrgs env))])%list ∧
  kv r.1 = kv σ.
Proof.
  intros Ht Hc Hkv Htr Hp. unfold onRequest. rewrite Ht, Hc. simpl.
  rewrite bind_run. unfold kv_get. rewrite Hkv. simpl. rewrite Htr.
  rewrite bind_run. unfold await. by rewrite Hp.
Qed.

Lemma onRequest_miss env w σ :
  truthy_opt (GITHUB_TOKEN env) = true →
  GH_CACHE env = true →
  truthy_opt (kv σ !! cacheKey (scopeOrgs env)) = false →
  healthy w →
  let key := cacheKey (scopeOrgs env) in
  let r := onRequest env w σ in
  ∃ data t,
    r.2 = Returned (okJSON data [("x-cache", "MISS")]) ∧
    trace r.1 = (trace σ ++ [KvGet key] ++ search_calls (orgsToQuery (scopeOrgs env))
                   ++ t ++ [KvPut key (JSON_stringify data) (ttl env)])%list ∧
    Forall (λ e, is_upstream e = true) t ∧
    kv r.1 = <[key := JSON_stringify data]> (kv σ).
Proof.
  intros Ht Hc Hkv Hw. unfold onRequest. rewrite Ht, Hc. simpl.
  rewrite bind_run. unfold kv_get. simpl. rewrite Hkv.
  unfold fetch_and_store. rewrite bind_run.
  set (σ0 := {| kv := kv σ |}).
  destruct (build_run w (scopeOrgs env) σ0) as (Hk & (t & Htr & Hup & _) & _ & Hret).
  destruct (Hret Hw) as (b & jobs & Hb).
  destruct (build w (scopeOrgs env) σ0) as [σ1 r]. simpl in *. subst r. mrun.
  exists (json_of_data jobs (now w) (scopeOrgs env) b), t.
  unfold kv_put. simpl. rewrite Htr, Hk. split_and!; try done.
  by rewrite <- !app_assoc.
Qed.




End overview_handler.

(** ** Scope lists and cache keys *)

Lemma split_comma_comma_free s : Forall comma_free (split_comma s).
Proof.
  induction s as [|c r IH]; simpl; [by repeat constructor|].
  destruct (Ascii.eqb_spec c ","%char) as [->|Hc]; [by constructor|].
  destruct (split_comma r) as [|h t]; [by repeat constructor|].
  apply Forall_cons in IH as [Hh Ht]. by repeat constructor.
Qed.

Lemma trim_start_comma_free s : comma_free s → comma_free (trim_start s).
Proof.
  induction s as [|c r IH]; simpl; [done|].
  intros [Hc Hr]. destruct (is_space c); [by apply IH|done].
Qed.

Lemma trim_end_comma_free s : comma_free s → comma_free (trim_end s).
Proof.
  induction s as [|c r IH]; simpl; [done|].
  intros [Hc Hr]. specialize (IH Hr).
  destruct (trim_end r); [by destruct (is_space c)|done].
Qed.

Lemma scopeOrgs_org_names env : Forall Overview.org_name (Overview.scopeOrgs env).
Proof.
  unfold Overview.scopeOrgs. apply Forall_forall. intros s Hs.
  apply list_elem_of_filter in Hs as [Ht Hs]. split; [done|].
  apply list_elem_of_fmap in Hs as (s' & -> & Hs').
  apply trim_end_comma_free, trim_start_comma_free.
  pose proof (split_comma_comma_free (or_else (Overview.GH_QUERY_ORGS env) "")) as Hall.
  rewrite Forall_forall in Hall. by apply Hall.
Qed.

Lemma join_comma_cons x y l :
  join_comma (x :: y :: l) = x +:+ "," +:+ join_comma (y :: l).
Proof. done. Qed.

Lemma append_nil s : "" +:+ s = s.
Proof. done. Qed.

Lemma append_cons c r s : String c r +:+ s = String c (r +:+ s).
Proof. done. Qed.

Lemma append_comma_inj x y a b :
  comma_free x → comma_free y →
  x +:+ "," +:+ a = y +:+ "," +:+ b → x = y ∧ a = b.
Proof.
  revert y. induction x as [|c r IH]; intros [|c' r'];
    repeat (rewrite append_nil || rewrite append_cons); simpl.
  - by intros _ _ [= ->].
  - by intros _ [Hc _] [= <-].
  - by intros [Hc _] _ [= ->].
  - intros [_ Hr] [_ Hr'] [= -> Heq]. by destruct (IH r' Hr Hr' Heq) as [-> ->].
Qed.

Lemma append_comma_not_free x a : ¬ comma_free (x +:+ "," +:+ a).
Proof.
  induction x as [|c r IH]; repeat (rewrite append_nil || rewrite append_cons); simpl;
    [by intros [? _]|by intros [_ ?]].
Qed.

Lemma join_comma_truthy x l : truthy x = true → truthy (join_comma (x :: l)) = true.
Proof.
  destruct l; [done|]. rewrite join_comma_cons.
  destruct x; [done|]. by rewrite append_cons.
Qed.

(** Joining is injective on lists of organisation names. *)
Lemma join_comma_inj l1 l2 :
  Forall Overview.org_name l1 → Forall Overview.org_name l2 →
  join_comma l1 = join_comma l2 → l1 = l2.
Proof.
  revert l2. induction l1 as [|x xs IH]; intros [|y ys] H1 H2 Heq; [done| | |].
  - apply Forall_cons in H2 as [[Hy _] _].
    apply (join_comma_truthy y ys) in Hy. by rewrite <- Heq in Hy.
  - apply Forall_cons in H1 as [[Hx _] _].
    apply (join_comma_truthy x xs) in Hx. by rewrite Heq in Hx.
  - apply Forall_cons in H1 as [[_ Hx] H1]. apply Forall_cons in H2 as [[_ Hy] H2].
    destruct xs as [|x' xs], ys as [|y' ys].
    + change (x = y) in Heq. by subst.
    + rewrite join_comma_cons in Heq. change (join_comma [x]) with x in Heq.
      subst x. by apply append_comma_not_free in Hx.
    + rewrite join_comma_cons in Heq. change (join_comma [y]) with y in Heq.
      subst y. by apply append_comma_not_free in Hy.
    + rewrite !join_comma_cons in Heq.
      apply append_comma_inj in Heq as [-> Heq]; [|done..].
      f_equal. by apply IH.
Qed.

(** X19. Two scope configurations share a cache key only when they are the
    same list, or when one is empty and the other is the single name "all". *)
Lemma cacheKey_collisions env1 env2 :
  let l1 := Overview.scopeOrgs env1 in
  let l2 := Overview.scopeOrgs env2 in
  Overview.cacheKey l1 = Overview.cacheKey l2 →
  l1 = l2 ∨ (l1 = [] ∧ l2 = ["all"]) ∨ (l1 = ["all"] ∧ l2 = []).
Proof.
  intros l1 l2.
  pose proof (scopeOrgs_org_names env1) as H1.
  pose proof (scopeOrgs_org_names env2) as H2.
  fold l1 in H1. fold l2 in H2. clearbody l1 l2.
  assert (Forall Overview.org_name ["all"]) as Hall by (by repeat constructor).
  unfold Overview.cacheKey. repeat (rewrite append_nil || rewrite append_cons). intros [= Heq].
  destruct l1 as [|x xs], l2 as [|y ys]; [by left| | |].
  - right; left. split; [done|]. symmetry. apply join_comma_inj; [done..|].
    apply Forall_cons in H2 as [[Hy _] _].
    unfold or_else in Heq. by rewrite (join_comma_truthy y ys Hy) in Heq.
  - right; right. split; [|done]. apply join_comma_inj; [done..|].
    apply Forall_cons in H1 as [[Hx _] _].
    unfold or_else in Heq. by rewrite (join_comma_truthy x xs Hx) in Heq.
  - left. apply join_comma_inj; [done..|].
    pose proof H1 as H1'. pose proof H2 as H2'.
    apply Forall_cons in H1' as [[Hx _] _]. apply Forall_cons in H2' as [[Hy _] _].
    unfold or_else in Heq.
    by rewrite (join_comma_truthy x xs Hx), (join_comma_truthy y ys Hy) in Heq.
Qed.

(** ** The claims about the handlers *)

Section handler_claims.
Context `{Platform}.

Lemma running_ignores_headSha (f : Overview.PRBasic → option string) b :
  let g := λ p, Overview.with_headSha (f p) p in
  Overview.running (Overview.map_buckets g b) = g <$> Overview.running b.
Proof.
  intros g. unfold Overview.running, slice0, Overview.map_buckets. simpl.
  rewrite <- !fmap_app, filter_fmap, fmap_take. done.
Qed.



(** C5, as amended. With the cache binding present and the token
    configured: a non-empty entry under the request's key (for the
    pull-request endpoint, one that parses) is returned tagged HIT, and only
    the cache is read; without such an entry, when the upstream calls
    succeed, the fresh payload is written once under that key, after the
    upstream calls and before the response, which is tagged MISS. *)
Theorem cache_hit_and_miss :
  (∀ runtime_env import_meta_env w σ cached,
     truthy_opt (Linear.LINEAR_TOKEN (Linear.env_of runtime_env import_meta_env)) = true →
     Linear.has_cache runtime_env = true →
     kv σ !! Linear.cacheKey = Some cached → truthy cached = true →
     let r := Linear.GET runtime_env import_meta_env w σ in
     r.2 = Returned
             {| HTTP.status := 200;
                HTTP.headers := [("content-type", "application/json");
                                 ("x-cache", "HIT")];
                HTTP.body := cached |} ∧
     trace r.1 = (trace σ ++ [KvGet Linear.cacheKey])%list ∧ kv r.1 = kv σ) ∧
  (∀ runtime_env import_meta_env w σ ns,
     let env := Linear.env_of runtime_env import_meta_env in
     truthy_opt (Linear.LINEAR_TOKEN env) = true →
     Linear.has_cache runtime_env = true →
     truthy_opt (kv σ !! Linear.cacheKey) = false →
     Linear.fetched w ns →
     let jsonData := Linear.payload (Linear.now w) ns in
     let r := Linear.GET runtime_env import_meta_env w σ in
     r.2 = Returned
             {| HTTP.status := 200;
                HTTP.headers := [("content-type", "application/json");
                                 ("x-cache", "MISS")];
                HTTP.body := jsonData |} ∧
     trace r.1 = (trace σ ++ [KvGet Linear.cacheKey;
                              LinearFetch (default "" (Linear.LINEAR_TOKEN env)) 20;
                              KvPut Linear.cacheKey jsonData (Linear.ttl env)])%list ∧
     kv r.1 = <[Linear.cacheKey := jsonData]> (kv σ)) ∧
  (∀ env w σ cached data,
     truthy_opt (Overview.GITHUB_TOKEN env) = true →
     Overview.GH_CACHE env = true →
     kv σ !! Overview.cacheKey (Overview.scopeOrgs env) = Some cached →
     truthy cached = true →
     JSON_parse cached = Returned data →
     let r := Overview.onRequest env w σ in
     r.2 = Returned (Overview.okJSON data [("x-cache", "HIT")]) ∧
     trace r.1 = (trace σ ++ [KvGet (Overview.cacheKey (Overview.scopeOrgs env))])%list ∧
     kv r.1 = kv σ) ∧
  (∀ env w σ,
     truthy_opt (Overview.GITHUB_TOKEN env) = true →
     Overview.GH_CACHE env = true →
     truthy_opt (kv σ !! Overview.cacheKey (Overview.scopeOrgs env)) = false →
     Overview.healthy w →
     let key := Overview.cacheKey (Overview.scopeOrgs env) in
     let r := Overview.onRequest env w σ in
     ∃ data t,
       r.2 = Returned (Overview.okJSON data [("x-cache", "MISS")]) ∧
       trace r.1 = (trace σ ++ [KvGet key]
                      ++ Overview.search_calls (Overview.orgsToQuery (Overview.scopeOrgs env))
                      ++ t ++ [KvPut key (JSON_stringify data) (Overview.ttl env)])%list ∧
       Forall (λ e, is_upstream e = true) t ∧
       kv r.1 = <[key := JSON_stringify data]> (kv σ)).
Proof.
  split_and!.
  - intros *. apply GET_hit.
  - intros *. apply GET_miss.
  - intros *. apply onRequest_hit.
  - intros *. apply onRequest_miss.
Qed.

(** C6. Without the access token either handler answers 500 (a JSON error
    body on the issue endpoint, plain text on the pull-request endpoint) and
    calls nothing: neither an upstream API nor the cache. *)
Theorem missing_token_answer :
  (∀ runtime_env import_meta_env w σ,
     truthy_opt (Linear.LINEAR_TOKEN (Linear.env_of runtime_env import_meta_env)) = false →
     Linear.GET runtime_env import_meta_env w σ =
     (σ, Returned
           {| HTTP.status := 500;
              HTTP.headers := [("content-type", "application/json")];
              HTTP.body := JSON_stringify
                             (JObj [("error", JStr "Missing LINEAR_TOKEN")]) |})) ∧
  (∀ env w σ,
     truthy_opt (Overview.GITHUB_TOKEN env) = false →
     Overview.onRequest env w σ =
     (σ, Returned {| HTTP.status := 500; HTTP.headers := [];
                     HTTP.body := "Missing GITHUB_TOKEN" |})).
Proof.
  split.
  - intros *. apply GET_missing_token.
  - intros *. apply onRequest_missing_token.
Qed.

End handler_claims.

(** C8, at the input where it fails. A scope list holding the one
    organisation "all" gets the key of the empty scope list, although the
    two configurations search differently; a payload cached by the unscoped
    deployment is then served to the scoped one.  An empty scope list makes
    one pass of three searches without an org filter. *)
Theorem scope_all_shares_key :
  Overview.search_calls (Overview.orgsToQuery []) =
    [GithubSearch "is:pr is:open author:@me sort:updated-desc" 20;
     GithubSearch "is:pr is:open review-requested:@me sort:updated-desc" 20;
     GithubSearch "is:pr is:open assignee:@me sort:updated-desc" 20] ∧
  Overview.scopeOrgs (Sample.overview_env None) = [] ∧
  Overview.scopeOrgs (Sample.overview_env (Some "all")) = ["all"] ∧
  Overview.cacheKey [] = "overview:all" ∧
  Overview.cacheKey ["all"] = "overview:all" ∧
  Overview.search_calls (Overview.orgsToQuery ["all"]) =
    [GithubSearch "is:pr is:open author:@me sort:updated-desc org:all" 20;
     GithubSearch "is:pr is:open review-requested:@me sort:updated-desc org:all" 20;
     GithubSearch "is:pr is:open assignee:@me sort:updated-desc org:all" 20] ∧
  (let first := Overview.onRequest (H := Sample.platform)
                  (Sample.overview_env None) Sample.github_quiet (fresh ∅) in
   let second := Overview.onRequest (H := Sample.platform)
                   (Sample.overview_env (Some "all")) Sample.github_quiet
                   (fresh (kv first.1)) in
   second.2 = Returned (Overview.okJSON (H := Sample.platform)
                          Sample.cached_overview [("x-cache", "HIT")]) ∧
   trace second.1 = [KvGet "overview:all"]).
Proof. by vm_compute. Qed.

(** ** Candidates, objects and slots *)

Section candidate_claims.
Import Overview.

Lemma running_NoDup w scopes σ b jobs :
  (build w scopes σ).2 = Returned (b, jobs) →
  NoDup (addr <$> all_of b) ∧ NoDup (addr <$> running b).
Proof.
  intros Hb. destruct (build_run w scopes σ) as (_ & _ & Hc & _).
  destruct (Hc b jobs Hb) as (_ & [Hnd _] & _). split; [done|].
  eapply sublist_NoDup; [exact Hnd|]. apply fmap_sublist.
  apply running_selection.
Qed.


(** C10. For a pull request without a head commit [attachJobs] returns at
    once and calls nothing; when it is among the selected entries its [jobs]
    property is still unset when the payload is serialised; and the
    selection does not look at [headSha], so the entry takes one of the at
    most 8 places all the same. *)
Theorem null_headSha_candidate w :
  (∀ pr σ, headSha pr = None → attachJobs w pr σ = (σ, Returned ())) ∧
  (∀ scopes σ b jobs pr,
     jobs_of σ = ∅ →
     (build w scopes σ).2 = Returned (b, jobs) →
     pr ∈ running b → headSha pr = None →
     jobs !! addr pr = None ∧ "jobs" ∉ json_keys (json_of_pr jobs pr)) ∧
  (∀ (f : PRBasic → option string) b,
     running (map_buckets (λ p, with_headSha (f p) p) b) =
     (λ p, with_headSha (f p) p) <$> running b) ∧
  (∀ b, length (running b) ≤ 8)%nat.
Proof.
  split_and!.
  - intros pr σ Hsha. unfold attachJobs. by rewrite Hsha.
  - intros scopes σ b jobs pr Hσ Hb Hin Hsha.
    assert (jobs !! addr pr = None) as Hnone.
    { destruct (running_NoDup w scopes σ b jobs Hb) as [_ Hnd].
      destruct (build_run w scopes σ) as (_ & _ & Hc & _).
      destruct (Hc b jobs Hb) as (_ & _ & Hj).
      rewrite Hj, Hσ; [apply lookup_empty|].
      intros (q & Hq & Hq')%list_elem_of_fmap.
      apply list_elem_of_filter in Hq' as [Hqs Hq'].
      apply (NoDup_fmap_inj_on addr (running b)) in Hq; [|done..].
      subst q. by rewrite Hsha in Hqs. }
    split; [done|]. unfold json_of_pr. rewrite Hnone. simpl.
    intros Hk.
    repeat (apply elem_of_cons in Hk as [Hk|Hk]; [discriminate Hk|]).
    by apply elem_of_nil in Hk.
  - intros f b. apply running_ignores_headSha.
  - intros b. apply running_selection.
Qed.

End candidate_claims.

(** ** The sample inputs, run *)

Section samples.
Import Sample.

(** The specification's example: A (High, older) comes before B (priority
    0, newer). *)
Example high_before_no_priority :
  Linear.identifier <$> Linear.issues_of (H := platform) [B; A] = ["A"; "B"].
Proof. reflexivity. Qed.

Example priority_names_sample :
  (λ n, Linear.name <$> Linear.priority_of (Linear.PriorityNumber n)) <$> [0; 1; 2; 3; 4; 5; -1]
  = Some <$> ["No priority"; "Urgent"; "High"; "Normal"; "Low"; "Unknown"; "Unknown"].
Proof. reflexivity. Qed.

(** PR 5 comes back from both scopes as mine and from one as to review:
    it is once in each merged bucket, as the object seen last. *)
Example pr5_once_per_bucket :
  Overview.combine two_scopes =
  {| Overview.mine := [Overview.normalize 3 pr5; Overview.normalize 2 pr7];
     Overview.review := [Overview.normalize 1 pr5];
     Overview.assigned := [] |}.
Proof. reflexivity. Qed.

(** PR 5 is pending in "mine" and in "review": it is selected twice, its
    workflow runs are listed twice, and both objects get their jobs; PR 6,
    without a head commit, is selected and gets none. *)
Example pr5_selected_twice :
  Overview.id <$> Overview.running built_buckets = ["PR_5"; "PR_6"; "PR_5"] ∧
  Overview.addr <$> Overview.running built_buckets = [0; 1; 2]%nat ∧
  trace built.1 =
    [GithubSearch "is:pr is:open author:@me sort:updated-desc" 20;
     GithubSearch "is:pr is:open review-requested:@me sort:updated-desc" 20;
     GithubSearch "is:pr is:open assignee:@me sort:updated-desc" 20;
     ListWorkflowRuns "acme" "app"; ListJobs "acme" "app" 77;
     ListWorkflowRuns "acme" "app"; ListJobs "acme" "app" 77] ∧
  is_Some (built_jobs !! 0%nat) ∧ built_jobs !! 1%nat = None ∧
  is_Some (built_jobs !! 2%nat).
Proof. split_and!; try reflexivity; by eexists. Qed.

Lemma issues_sorted_sample :
  StronglySorted (Spec.listed_before (H := platform))
                 (Linear.issues_of (H := platform) nodes).
Proof.
  refine (proj2 (proj2 (issues_sorted (H := platform) nodes)) _).
  repeat constructor; eexists; reflexivity.
Defined.


Lemma buckets_merged_sample :
  last (filter (λ q, Overview.id q = Overview.id (Overview.normalize 3 pr5))
               (two_scopes ≫= Overview.mine))
  = Some (Overview.normalize 3 pr5).
Proof.
  destruct (buckets_merged_by_id two_scopes) as ((_ & _ & _ & Hlast) & _).
  apply Hlast. apply list_elem_of_lookup. exists 0%nat. reflexivity.
Defined.

Lemma missing_token_sample :
  Linear.GET (H := platform) linear_env_no_token no_vars linear_up (fresh ∅) =
  (fresh ∅,
   Returned {| HTTP.status := 500;
               HTTP.headers := [("content-type", "application/json")];
               HTTP.body := print (JObj [("error", JStr "Missing LINEAR_TOKEN")]) |}) ∧
  Overview.onRequest (H := platform)
    {| Overview.GITHUB_TOKEN := None; Overview.GH_QUERY_ORGS := None;
       Overview.GH_PINNED_REPOS := None; Overview.GH_CACHE := true;
       Overview.GH_CACHE_TTL := None |} github_up (fresh ∅) =
  (fresh ∅,
   Returned {| HTTP.status := 500; HTTP.headers := [];
               HTTP.body := "Missing GITHUB_TOKEN" |}).
Proof.
  destruct (missing_token_answer (H := platform)) as [Hissue Hpr]. split.
  - apply (Hissue linear_env_no_token no_vars linear_up (fresh ∅)). reflexivity.
  - apply Hpr. reflexivity.
Defined.


Lemma github_up_healthy : Overview.healthy github_up.
Proof.
  split_and!; intros; simpl; [|by eexists..].
  repeat case_decide; by eexists.
Defined.

Lemma cache_hit_and_miss_sample :
  (let r := Linear.GET (H := platform) linear_env no_vars linear_up
              (fresh {[Linear.cacheKey := "{}"]}) in
   r.2 = Returned {| HTTP.status := 200;
                     HTTP.headers := [("content-type", "application/json");
                                      ("x-cache", "HIT")];
                     HTTP.body := "{}" |} ∧
   trace r.1 = [KvGet "linear:recent-issues"]) ∧
  (let r := Linear.GET (H := platform) linear_env no_vars linear_up (fresh ∅) in
   let jsonData := Linear.payload (H := platform) T3 nodes in
   r.2 = Returned {| HTTP.status := 200;
                     HTTP.headers := [("content-type", "application/json");
                                      ("x-cache", "MISS")];
                     HTTP.body := jsonData |} ∧
   trace r.1 = [KvGet "linear:recent-issues"; LinearFetch "lin_api_key" 20;
                KvPut "linear:recent-issues" jsonData (Some 90)] ∧
   kv r.1 !! "linear:recent-issues" = Some jsonData) ∧
  (let r := Overview.onRequest (H := platform) (overview_env None) github_up
              (fresh {["overview:all" := print cached_overview]}) in
   r.2 = Returned (Overview.okJSON (H := platform) cached_overview [("x-cache", "HIT")]) ∧
   trace r.1 = [KvGet "overview:all"]) ∧
  (let r := Overview.onRequest (H := platform) (overview_env None) github_up (fresh ∅) in
   ∃ data t,
     r.2 = Returned (Overview.okJSON (H := platform) data [("x-cache", "MISS")]) ∧
     trace r.1 = ([KvGet "overview:all"]
                    ++ Overview.search_calls (Overview.orgsToQuery [])
                    ++ t ++ [KvPut "overview:all" (print data) (Some 90)])%list ∧
     Forall (λ e, is_upstream e = true) t ∧
     kv r.1 !! "overview:all" = Some (print data)).
Proof.
  destruct (cache_hit_and_miss (H := platform)) as (Hih & Him & Hph & Hpm).
  split_and!.
  - destruct (Hih linear_env no_vars linear_up
                (fresh {[Linear.cacheKey := "{}"]}) "{}") as (Hr & Ht & _);
      [reflexivity..|].
    split; [exact Hr|exact Ht].
  - destruct (Him linear_env no_vars linear_up (fresh ∅) nodes) as (Hr & Ht & Hk);
      [reflexivity..| |].
    { eexists _, _. split_and!; reflexivity. }
    split_and!; [exact Hr|exact Ht|].
    simpl in Hk. rewrite Hk. apply lookup_insert_eq.
  - destruct (Hph (overview_env None) github_up
                (fresh {["overview:all" := print cached_overview]})
                (print cached_overview) cached_overview) as (Hr & Ht & _);
      [reflexivity..|].
    split; [exact Hr|exact Ht].
  - destruct (Hpm (overview_env None) github_up (fresh ∅))
      as (data & t & Hr & Ht & Hu & Hk); [reflexivity..|exact github_up_healthy|].
    exists data, t. split_and!; [exact Hr|exact Ht|exact Hu|].
    simpl in Hk. rewrite Hk. apply lookup_insert_eq.
Defined.


Lemma null_headSha_sample :
  Overview.attachJobs github_up pr6_mine (fresh ∅) = (fresh ∅, Returned ()) ∧
  built_jobs !! Overview.addr pr6_mine = None ∧
  "jobs" ∉ json_keys (Overview.json_of_pr built_jobs pr6_mine).
Proof.
  destruct (null_headSha_candidate github_up) as (Hnow & Hunset & _).
  split.
  - apply Hnow. reflexivity.
  - apply (Hunset [] (fresh ∅) built_buckets built_jobs pr6_mine);
      [reflexivity..| |reflexivity].
    apply list_elem_of_lookup. exists 1%nat. reflexivity.
Defined.


(** Four requests with the cache binding present that do not behave as the
    unamended claim says: the token is missing and the entry is not served;
    the entry is absent and Linear answers 503, so nothing is stored and the
    response carries no miss tag; the entry is empty and counts as absent;
    the entry of the pull-request endpoint does not parse and the handler
    throws. *)
Lemma cache_claim_fails :
  (let r := Linear.GET (H := platform) linear_env_no_token no_vars linear_up
              (fresh {[Linear.cacheKey := "{}"]}) in
   r.2 = Returned (Linear.missing_token_response (H := platform)) ∧ trace r.1 = []) ∧
  (let r := Linear.GET (H := platform) linear_env no_vars linear_down (fresh ∅) in
   r.2 = Returned (Linear.error_response (H := platform)
                     (JsError "Linear API error: 503")) ∧
   trace r.1 = [KvGet "linear:recent-issues"; LinearFetch "lin_api_key" 20] ∧
   kv r.1 !! "linear:recent-issues" = None) ∧
  (let r := Linear.GET (H := platform) linear_env no_vars linear_down
              (fresh {[Linear.cacheKey := ""]}) in
   trace r.1 = [KvGet "linear:recent-issues"; LinearFetch "lin_api_key" 20]) ∧
  (let r := Overview.onRequest (H := platform) (overview_env None) github_up
              (fresh {["overview:all" := "not json"]}) in
   r.2 = Threw (JsError "Unexpected token in JSON")).
Proof. cbv zeta. split_and!; reflexivity. Qed.

End samples.

(** ** Further properties of the issue handler *)

Section sort_stable.
Context {A : Type} (comparefn : A → A → option Z).
Context (P : A → Prop) `{!∀ x, Decision (P x)}.

(** Elements that the comparator does not tell apart keep their order. *)
Lemma sort_insert_filter x l :
  (∀ a b, P a → P b → sort_compare comparefn a b ≤ 0) →
  filter P (sort_insert comparefn x l) = filter P (x :: l).
Proof.
  intros Htie. induction l as [|y r IH]; [done|]. simpl.
  case_decide as Hc; [done|].
  rewrite filter_cons, IH, !filter_cons.
  destruct (decide (P y)) as [Hy|Hy], (decide (P x)) as [Hx|Hx]; try done.
  destruct Hc. by apply Htie.
Qed.

Lemma sort_filter l :
  (∀ a b, P a → P b → sort_compare comparefn a b ≤ 0) →
  filter P (sort comparefn l) = filter P l.
Proof.
  intros Htie. induction l as [|x l IH]; [done|]. simpl.
  rewrite sort_insert_filter by done. by rewrite !filter_cons, IH.
Qed.
End sort_stable.

Lemma cache_calls_app t1 t2 :
  cache_calls (t1 ++ t2) = (cache_calls t1 ++ cache_calls t2)%list.
Proof. apply List.filter_app. Qed.

Lemma cache_calls_upstream t :
  Forall (λ e, is_upstream e = true) t → cache_calls t = [].
Proof.
  induction 1 as [|e t He _ IH]; [done|].
  unfold cache_calls in *. simpl. by rewrite He.
Qed.

Section linear_extras.
Context `{Platform}.
Import Linear.

(** X1. The sort is stable: issues of one rank with the same update time
    are listed in the order the upstream returned them. *)
Theorem issues_ties_keep_order (ns : list Node) (r t : Z) :
  Forall (λ n, is_Some (Date_getTime (node_updatedAt n))) ns →
  filter (λ i, Spec.rank i = r ∧ Date_getTime (updatedAt i) = Some t) (issues_of ns)
  = filter (λ i, Spec.rank i = r ∧ Date_getTime (updatedAt i) = Some t)
           (transform <$> ns).
Proof.
  intros _. unfold issues_of. apply sort_filter.
  intros a b [Ha Hta] [Hb Htb]. unfold sort_compare, compare_issues.
  rewrite !sort_key_rank, Ha, Hb, Z.eqb_refl, Hta, Htb. simpl. lia.
Qed.

(** X2. Without the cache binding (in particular without a runtime) the
    handler makes no cache call and leaves the cache as it is, whatever
    the upstream answers. *)
Theorem GET_without_binding runtime_env import_meta_env w σ :
  has_cache runtime_env = false →
  let r := GET runtime_env import_meta_env w σ in
  cache_calls (trace r.1) = cache_calls (trace σ) ∧ kv r.1 = kv σ.
Proof.
  intros Hc. unfold GET. rewrite Hc.
  destruct (truthy_opt (LINEAR_TOKEN _)); simpl; [|done].
  unfold try_catch, fetch_and_store. mrun.
  unfold mbind, M_bind, await, emit, throw; simpl.
  destruct (fetch_result w) as [resp|e]; simpl;
    [|by rewrite cache_calls_app, app_nil_r].
  destruct (ok resp); simpl; [|by rewrite cache_calls_app, app_nil_r].
  destruct (response_json resp) as [res|e]; simpl;
    [|by rewrite cache_calls_app, app_nil_r].
  destruct (from_option json_truthy false (errors res)); simpl;
    [by rewrite cache_calls_app, app_nil_r|].
  destruct (nodes res); simpl; by rewrite cache_calls_app, app_nil_r.
Qed.

(** X3. The only cache write of a request is the fresh payload, under the
    fixed key, and it goes with the MISS response carrying that same
    payload; every other request leaves the cache as it is. *)
Theorem GET_writes_what_it_returns runtime_env import_meta_env w σ :
  let r := GET runtime_env import_meta_env w σ in
  kv r.1 = kv σ ∨
  ∃ jsonData,
    r.2 = Returned (miss_response jsonData) ∧
    kv r.1 = <[cacheKey := jsonData]> (kv σ) ∧
    last (trace r.1) =
      Some (KvPut cacheKey jsonData (ttl (env_of runtime_env import_meta_env))).
Proof.
  unfold GET. destruct (truthy_opt (LINEAR_TOKEN _)); simpl; [|by left].
  unfold try_catch, fetch_and_store.
  destruct (has_cache runtime_env); mrun.
  - unfold kv_get; simpl.
    destruct (truthy_opt (kv σ !! cacheKey)); simpl; [by left|].
    unfold mbind, M_bind, await, emit, throw, kv_put; simpl.
    destruct (fetch_result w) as [resp|e]; simpl; [|by left].
    destruct (ok resp); simpl; [|by left].
    destruct (response_json resp) as [res|e]; simpl; [|by left].
    destruct (from_option json_truthy false (errors res)); simpl; [by left|].
    destruct (nodes res) as [ns|e]; simpl; [|by left].
    right. eexists. split_and!; [done..|]. apply last_snoc.
  - unfold mbind, M_bind, await, emit, throw; simpl.
    destruct (fetch_result w) as [resp|e]; simpl; [|by left].
    destruct (ok resp); simpl; [|by left].
    destruct (response_json resp) as [res|e]; simpl; [|by left].
    destruct (from_option json_truthy false (errors res)); simpl; [by left|].
    destruct (nodes res) as [ns|e]; simpl; by left.
Qed.

(** X4. The failures of the fetch path that are not an upstream status or
    error payload are caught all the same: a rejected [fetch], a body that
    does not parse and a result without the issue nodes each give the 500
    whose details are the error's message, and nothing is cached. *)
Theorem GET_catches_everything runtime_env import_meta_env w σ e :
  truthy_opt (LINEAR_TOKEN (env_of runtime_env import_meta_env)) = true →
  (has_cache runtime_env = true → truthy_opt (kv σ !! cacheKey) = false) →
  fetch_result w = Threw e ∨
  (∃ resp, fetch_result w = Returned resp ∧ ok resp = true ∧
           (response_json resp = Threw e ∨
            ∃ res, response_json resp = Returned res ∧
                   from_option json_truthy false (errors res) = false ∧
                   nodes res = Threw e)) →
  let r := GET runtime_env import_meta_env w σ in
  r.2 = Returned (error_response e) ∧ kv r.1 = kv σ.
Proof.
  intros Ht Hkv Hf. unfold GET. rewrite Ht. simpl.
  unfold mbind, M_bind, kv_get, try_catch, fetch_and_store.
  destruct (has_cache runtime_env) eqn:Hc; simpl;
    [rewrite Hkv by done; simpl|];
    unfold mbind, M_bind, await, emit, throw; simpl;
    (destruct Hf as [->|(resp & -> & Hok & [Hj|(res & Hj & He & Hn)])]; simpl;
      [done|rewrite Hok; simpl; by rewrite Hj|]);
    rewrite Hok; simpl; rewrite Hj; simpl; rewrite He; simpl; by rewrite Hn.
Qed.

(** X5. A fresh payload that is stored is served by the next request as it
    is: after a MISS the same deployment answers HIT with the same body,
    reading only the cache, whatever the upstream would answer then. *)
Theorem GET_miss_then_hit runtime_env import_meta_env w w' σ ns :
  let env := env_of runtime_env import_meta_env in
  truthy_opt (LINEAR_TOKEN env) = true →
  has_cache runtime_env = true →
  truthy_opt (kv σ !! cacheKey) = false →
  fetched w ns →
  truthy (payload (now w) ns) = true →
  let first := GET runtime_env import_meta_env w σ in
  let second := GET runtime_env import_meta_env w' first.1 in
  first.2 = Returned (miss_response (payload (now w) ns)) ∧
  second.2 = Returned (hit_response (payload (now w) ns)) ∧
  trace second.1 = (trace first.1 ++ [KvGet cacheKey])%list ∧
  kv second.1 = kv first.1.
Proof.
  intros env Ht Hc Hkv Hf Hp first second.
  destruct (GET_miss runtime_env import_meta_env w σ ns Ht Hc Hkv Hf)
    as (Hr & _ & Hk).
  split; [exact Hr|].
  apply (GET_hit runtime_env import_meta_env w' first.1); [done..| |done].
  fold first in Hk. rewrite Hk. apply lookup_insert_eq.
Qed.

End linear_extras.

(** ** Further properties of the scope list *)














(** ** Further properties of the pull-request handler *)

Section map_more.
Context {V : Type}.
Implicit Types (m es : list (string * V)).

Lemma map_set_fresh k v m : k ∉ m.*1 → map_set k v m = (m ++ [(k, v)])%list.
Proof.
  induction m as [|[k' v'] r IH]; [done|]. csimpl.
  intros [Hne Hr]%not_elem_of_cons. simpl map_set.
  rewrite decide_False by done. by rewrite IH.
Qed.

Lemma new_Map_NoDup es : NoDup es.*1 → new_Map es = es.
Proof.
  induction es as [|[k v] es IH] using rev_ind; [done|].
  rewrite fmap_app. csimpl. intros (Hes & Hk & _)%NoDup_app.
  rewrite new_Map_snoc, IH by done. apply map_set_fresh.
  intros Hin. apply (Hk k Hin). left.
Qed.
End map_more.

Section overview_extras.
Context `{Platform}.
Import Overview.

(** X8. Merging changes nothing in a list whose ids are already distinct
    (so the results of a single scope come through in upstream order), and
    merging twice is merging once. *)
Theorem dedupe_fixed_point (prs : list PRBasic) :
  (NoDup (id <$> prs) → dedupe prs = prs) ∧ dedupe (dedupe prs) = dedupe prs.
Proof.
  assert (∀ l : list PRBasic, NoDup (id <$> l) → dedupe l = l) as Hfix.
  { intros l Hl. unfold dedupe, map_values. rewrite new_Map_NoDup.
    - rewrite <- list_fmap_compose. apply list_fmap_id.
    - by rewrite <- list_fmap_compose. }
  split; [apply Hfix|]. apply Hfix. by destruct (dedupe_merged prs) as [? _].
Qed.

Lemma fetch_and_store_run w scopes has_cache key ttl σ :
  let r := fetch_and_store w scopes has_cache key ttl σ in
  (∃ t, trace r.1 = (trace σ ++ t)%list ∧
        cache_calls t = match r.2 with
                        | Returned resp =>
                            if has_cache then [KvPut key (HTTP.body resp) ttl] else []
                        | Threw _ => []
                        end) ∧
  match r.2 with
  | Returned resp =>
      (∃ data, resp = okJSON data [("x-cache", "MISS")]) ∧
      kv r.1 = if has_cache then <[key := HTTP.body resp]> (kv σ) else kv σ
  | Threw _ => kv r.1 = kv σ
  end.
Proof.
  unfold fetch_and_store. rewrite bind_run.
  destruct (build_run w scopes σ) as (Hk & (t & Ht & Hup & _) & _).
  pose proof (search_calls_upstream (orgsToQuery scopes)) as [Hs _].
  assert (cache_calls (search_calls (orgsToQuery scopes) ++ t) = []) as Hcc.
  { apply cache_calls_upstream, Forall_app. by split. }
  destruct (build w scopes σ) as [σ1 [[b jobs]|e]]; simpl in *.
  - rewrite bind_run. destruct has_cache; simpl.
    + split; [|by rewrite Hk; eauto].
      eexists. rewrite Ht, <- app_assoc. split; [done|].
      by rewrite !cache_calls_app, cache_calls_upstream, cache_calls_upstream.
    + split; [|by eauto]. eexists. split; [exact Ht|done].
  - split; [|done]. eexists. split; [exact Ht|done].
Qed.

(** X9. Without the cache binding the handler makes no cache call and
    leaves the cache as it is, whatever GitHub answers. *)
Theorem onRequest_without_binding env w σ :
  GH_CACHE env = false →
  let r := onRequest env w σ in
  cache_calls (trace r.1) = cache_calls (trace σ) ∧ kv r.1 = kv σ.
Proof.
  intros Hc. unfold onRequest. rewrite Hc.
  destruct (truthy_opt (GITHUB_TOKEN env)); simpl; [|done]. rewrite bind_run. simpl.
  destruct (fetch_and_store_run w (scopeOrgs env) false
              (cacheKey (scopeOrgs env)) (ttl env) σ) as ((t & Ht & Hcc) & Hk).
  destruct (fetch_and_store _ _ _ _ _ σ) as [σ1 [resp|e]]; simpl in *;
    rewrite Ht, cache_calls_app, Hcc, app_nil_r; [by destruct Hk|done].
Qed.

(** X10. The only cache write of a request is the serialised payload,
    under the request's key, and it goes with the MISS response whose body
    is that same text; every other request, and every request that throws,
    leaves the cache as it is. *)
Theorem onRequest_writes_what_it_returns env w σ :
  let r := onRequest env w σ in
  kv r.1 = kv σ ∨
  ∃ data,
    r.2 = Returned (okJSON data [("x-cache", "MISS")]) ∧
    kv r.1 = <[cacheKey (scopeOrgs env) := JSON_stringify data]> (kv σ) ∧
    last (trace r.1) =
      Some (KvPut (cacheKey (scopeOrgs env)) (JSON_stringify data) (ttl env)).
Proof.
  unfold onRequest. destruct (truthy_opt (GITHUB_TOKEN env)); simpl; [|by left].
  rewrite bind_run.
  assert (∀ σ0, kv σ0 = kv σ →
    let r := fetch_and_store w (scopeOrgs env) (GH_CACHE env)
               (cacheKey (scopeOrgs env)) (ttl env) σ0 in
    kv r.1 = kv σ ∨
    ∃ data, r.2 = Returned (okJSON data [("x-cache", "MISS")]) ∧
      kv r.1 = <[cacheKey (scopeOrgs env) := JSON_stringify data]> (kv σ) ∧
      last (trace r.1) = Some (KvPut (cacheKey (scopeOrgs env))
                                 (JSON_stringify data) (ttl env))) as Hfs.
  { intros σ0 Hσ0. unfold fetch_and_store. rewrite bind_run.
    destruct (build_run w (scopeOrgs env) σ0) as (Hk & _).
    destruct (build w (scopeOrgs env) σ0) as [σ1 [[b jobs]|e]]; simpl in *;
      [|left; congruence].
    rewrite bind_run. destruct (GH_CACHE env); simpl; [|left; congruence].
    right. eexists. split_and!; [done|by rewrite Hk, Hσ0|apply last_snoc]. }
  destruct (GH_CACHE env) eqn:Hc; simpl; [|by apply Hfs].
  destruct (truthy_opt (kv σ !! _)); simpl; [|by apply Hfs].
  left. rewrite bind_run. unfold await. by destruct (JSON_parse _).
Qed.


(** X11. A payload that is stored is served by the next request: after a
    MISS whose text parses back to the payload, the same deployment answers
    HIT with that payload, reading only the cache, whatever GitHub would
    answer then. *)
Theorem onRequest_miss_then_hit env w w' σ data :
  truthy_opt (GITHUB_TOKEN env) = true →
  GH_CACHE env = true →
  truthy_opt (kv σ !! cacheKey (scopeOrgs env)) = false →
  let first := onRequest env w σ in
  let second := onRequest env w' first.1 in
  first.2 = Returned (okJSON data [("x-cache", "MISS")]) →
  truthy (JSON_stringify data) = true →
  JSON_parse (JSON_stringify data) = Returned data →
  second.2 = Returned (okJSON data [("x-cache", "HIT")]) ∧
  trace second.1 = (trace first.1 ++ [KvGet (cacheKey (scopeOrgs env))])%list ∧
  kv second.1 = kv first.1.
Proof.
  intros Ht Hc Hkv first second Hfirst Htr Hparse.
  apply (onRequest_hit env w' first.1 (JSON_stringify data) data); try done.
  revert Hfirst. unfold first, onRequest. rewrite Ht, Hc. simpl.
  rewrite bind_run. unfold kv_get. simpl. rewrite Hkv.
  destruct (fetch_and_store_run w (scopeOrgs env) true (cacheKey (scopeOrgs env))
              (ttl env) {| kv := kv σ; trace := trace σ ++ [KvGet (cacheKey (scopeOrgs env))];
                           next_addr := next_addr σ; jobs_of := jobs_of σ |})
    as (_ & Hk).
  destruct (fetch_and_store _ _ _ _ _ _) as [σ1 [resp|e]]; simpl in *; [|done].
  intros [= ->]. destruct Hk as [_ ->]. apply lookup_insert_eq.
Qed.

End overview_extras.

Section overview_calls.
Import Overview.

Lemma build_calls w scopes σ :
  ∃ t, trace (build w scopes σ).1 =
         (trace σ ++ search_calls (orgsToQuery scopes) ++ t)%list ∧
       (t = [] ∨ ∃ b, t = running b ≫= attach_calls w).
Proof.
  unfold build. rewrite bind_run.
  destruct (fetch_phase_fetches w (orgsToQuery scopes) σ) as (Ht & _).
  destruct (Promise_all (fetchOrg w <$> _) σ) as [σ1 [rs|e]]; simpl in *.
  2:{ exists []. rewrite app_nil_r. by split; [|left]. }
  rewrite bind_run.
  destruct (enrich_phase_enriches w (running (combine rs)) σ1) as (Ht' & _).
  destruct (Promise_all (attachJobs w <$> _) σ1) as [σ2 [us|e]]; simpl in *;
    (eexists; split; [by rewrite Ht', Ht, <- app_assoc|right; by eexists]).
Qed.

Lemma search_calls_length orgs : length (search_calls orgs) = (3 * length orgs)%nat.
Proof.
  unfold search_calls. induction orgs as [|o orgs IH]; [done|].
  rewrite bind_cons, length_app, IH. simpl. lia.
Qed.

Lemma orgsToQuery_length l : length (orgsToQuery l) = (1 `max` length l)%nat.
Proof. destruct l; [done|]. unfold orgsToQuery. rewrite length_fmap. simpl. lia. Qed.

Lemma attach_calls_length w l :
  (length (l ≫= attach_calls w) ≤ 2 * length l)%nat.
Proof.
  induction l as [|p l IH]; [done|]. rewrite bind_cons, length_app. simpl length.
  assert (length (attach_calls w p) ≤ 2)%nat; [|lia].
  unfold attach_calls. destruct (negb _); [simpl; lia|]. simpl.
  destruct (workflow_runs _ _ _); [|simpl; lia].
  destruct (List.find _ _); simpl; lia.
Qed.

Lemma upstream_calls_length t : (length (upstream_calls t) ≤ length t)%nat.
Proof.
  unfold upstream_calls. induction t as [|e t IH]; [done|]. simpl.
  destruct (is_upstream e); simpl; lia.
Qed.

End overview_calls.

Section overview_bounds.
Context `{Platform}.
Import Overview.

(** X12. A request calls GitHub at most 3 times per scope (3 times when no
    scope is set) for the searches, plus at most 16 times for the jobs of
    the selected pull requests, whether the calls succeed or not. *)
Theorem onRequest_upstream_bound env w σ :
  (length (upstream_calls (trace (onRequest env w σ).1))
   ≤ length (upstream_calls (trace σ))
     + 3 * (1 `max` length (scopeOrgs env)) + 16)%nat.
Proof.
  unfold onRequest. destruct (truthy_opt (GITHUB_TOKEN env)); simpl; [|lia].
  rewrite bind_run.
  assert (∀ σ0, length (upstream_calls (trace
            (fetch_and_store w (scopeOrgs env) (GH_CACHE env)
               (cacheKey (scopeOrgs env)) (ttl env) σ0).1))
          ≤ length (upstream_calls (trace σ0))
            + 3 * (1 `max` length (scopeOrgs env)) + 16)%nat as Hfs.
  { intros σ0. unfold fetch_and_store. rewrite bind_run.
    destruct (build_calls w (scopeOrgs env) σ0) as (t & Ht & Hcases).
    assert (length t ≤ 16)%nat as Hlen.
    { destruct Hcases as [->|[b ->]]; [simpl; lia|].
      pose proof (attach_calls_length w (running b)).
      pose proof (running_selection b) as (_ & _ & _ & ?). lia. }
    pose proof (upstream_calls_length (search_calls (orgsToQuery (scopeOrgs env)))) as Hs.
    rewrite search_calls_length, orgsToQuery_length in Hs.
    pose proof (upstream_calls_length t).
    destruct (build w (scopeOrgs env) σ0) as [σ1 [[b jobs]|e]]; simpl in *.
    - rewrite bind_run. destruct (GH_CACHE env); simpl;
        rewrite Ht, !upstream_calls_app, !length_app; simpl; lia.
    - rewrite Ht, !upstream_calls_app, !length_app; simpl; lia. }
  destruct (GH_CACHE env) eqn:Hc; simpl; [|apply Hfs].
  destruct (truthy_opt (kv σ !! _)); simpl.
  - rewrite bind_run. unfold await.
    destruct (JSON_parse _); simpl; rewrite upstream_calls_app, length_app; simpl; lia.
  - etrans; [apply Hfs|]. simpl. rewrite upstream_calls_app, length_app. simpl. lia.
Qed.

End overview_bounds.

Section overview_objects.
Import Overview.

(** X13. Only selected pull requests ever carry jobs: in what a request
    builds, an object with a [jobs] property is one of the (at most 8)
    selected entries, is pending and has a head commit. *)
Theorem jobs_only_on_selected w scopes σ b jobs :
  jobs_of σ = ∅ →
  (build w scopes σ).2 = Returned (b, jobs) →
  (∀ a, is_Some (jobs !! a) →
        ∃ pr, pr ∈ running b ∧ addr pr = a ∧
              rollup (status pr) = Some "PENDING" ∧
              truthy_opt (headSha pr) = true) ∧
  (size jobs ≤ 8)%nat.
Proof.
  intros Hσ Hb.
  destruct (running_NoDup w scopes σ b jobs Hb) as [_ Hnd].
  destruct (build_run w scopes σ) as (_ & _ & Hc & _).
  destruct (Hc b jobs Hb) as (_ & _ & Hj). clear Hc.
  set (L := addr <$> filter (λ p, truthy_opt (headSha p) = true) (running b)) in *.
  assert (∀ a, is_Some (jobs !! a) → a ∈ L) as HL.
  { intros a Ha. destruct (decide (a ∈ L)) as [|Hn]; [done|].
    rewrite Hj, Hσ, lookup_empty in Ha by done. by destruct Ha. }
  split.
  - intros a (pr & -> & Hpr)%HL%list_elem_of_fmap.
    apply list_elem_of_filter in Hpr as [Hsha Hpr].
    exists pr. split_and!; [done..| |done].
    destruct (running_selection b) as (_ & _ & Hp & _).
    rewrite Forall_forall in Hp. by apply Hp.
  - rewrite <- size_dom.
    transitivity (size (list_to_set L : gset nat)).
    + apply subseteq_size. intros a Ha%elem_of_dom. apply elem_of_list_to_set. auto.
    + rewrite size_list_to_set.
      * unfold L. rewrite length_fmap.
        pose proof (length_filter (λ p, truthy_opt (headSha p) = true) (running b)).
        pose proof (running_selection b) as (_ & _ & _ & ?). lia.
      * eapply sublist_NoDup; [exact Hnd|]. apply fmap_sublist, sublist_filter.
Qed.

(** [attachJobs] is rejected for [pr]: it has a head commit and the listing
    of the workflow runs, or of the jobs of the run found, is rejected. *)
Lemma attachJobs_throws w pr :
  truthy_opt (headSha pr) = true →
  (∃ e, workflow_runs w (repo_owner (repo pr)) (repo_name (repo pr)) = Threw e) ∨
  (∃ runs run e,
     workflow_runs w (repo_owner (repo pr)) (repo_name (repo pr)) = Returned runs ∧
     List.find (run_matches pr) runs = Some run ∧
     workflow_jobs w (repo_owner (repo pr)) (repo_name (repo pr)) (run_id run) = Threw e) →
  ∀ σ, ∃ e, (attachJobs w pr σ).2 = Threw e.
Proof.
  intros Hsha Hf σ. unfold attachJobs. rewrite Hsha. simpl. mrun.
  destruct Hf as [[e ->]|(runs & run & e & -> & Hfind & Hj)]; mrun; [by eexists|].
  rewrite Hfind. mrun. rewrite Hj. mrun. by eexists.
Qed.

End overview_objects.

Section overview_failures.
Context `{Platform}.
Import Overview.

(** X14. Enrichment is not isolated per candidate: once the searches have
    returned, a rejected listing of the workflow runs (or of the jobs of the
    run found) for one selected pull request rejects the whole request, and
    nothing is cached. *)
Theorem enrichment_failure_rejects w scopes σ σ1 rs pr has_cache key ttl :
  Promise_all (fetchOrg w <$> orgsToQuery scopes) σ = (σ1, Returned rs) →
  pr ∈ running (combine rs) →
  truthy_opt (headSha pr) = true →
  (∃ e, workflow_runs w (repo_owner (repo pr)) (repo_name (repo pr)) = Threw e) ∨
  (∃ runs run e,
     workflow_runs w (repo_owner (repo pr)) (repo_name (repo pr)) = Returned runs ∧
     List.find (run_matches pr) runs = Some run ∧
     workflow_jobs w (repo_owner (repo pr)) (repo_name (repo pr)) (run_id run) = Threw e) →
  let r := fetch_and_store w scopes has_cache key ttl σ in
  (∃ e, r.2 = Threw e) ∧ kv r.1 = kv σ.
Proof.
  intros Hfetch Hpr Hsha Hf r.
  assert (∃ e, (build w scopes σ).2 = Threw e) as [e He].
  { unfold build. rewrite bind_run, Hfetch. rewrite bind_run.
    destruct (Promise_all_throws (attachJobs w <$> running (combine rs))
                (attachJobs w pr)) with (σ := σ1) as [e He].
    - by apply list_elem_of_fmap_2.
    - by apply attachJobs_throws.
    - destruct (Promise_all _ σ1) as [σ2 u]. simpl in He. subst u. by eexists. }
  destruct (build_run w scopes σ) as (Hk & _).
  unfold r, fetch_and_store. rewrite bind_run.
  destruct (build w scopes σ) as [σ2 u]. simpl in *. subst u. eauto.
Qed.

End overview_failures.

Section overview_buckets.
Import Overview.

Lemma alloc_ids n (nodes : list RawPR) :
  id <$> imap (λ i pr, normalize (n + i)%nat pr) nodes = raw_id <$> nodes.
Proof.
  revert n. induction nodes as [|x l IH]; intros n; [done|]. csimpl.
  f_equal. rewrite <- (IH (S n)). f_equal.
  apply imap_ext. intros i y _. simpl. f_equal. lia.
Qed.

Lemma fetchBucket_ids w q σ :
  (∃ r, search w q 20 = Returned r) →
  ∃ l, (fetchBucket w q σ).2 = Returned l ∧ id <$> l = raw_id <$> found w q.
Proof.
  intros [r Hr]. unfold fetchBucket, found. mrun. rewrite Hr. mrun.
  eexists. split; [done|]. apply alloc_ids.
Qed.

Lemma fetchOrg_ids w org σ :
  (∀ q, ∃ r, search w q 20 = Returned r) →
  ∃ b, (fetchOrg w org σ).2 = Returned b ∧
       id <$> mine b = raw_id <$> found w (q_mine (buildQueries org)) ∧
       id <$> review b = raw_id <$> found w (q_review (buildQueries org)) ∧
       id <$> assigned b = raw_id <$> found w (q_assigned (buildQueries org)).
Proof.
  intros Hs. unfold fetchOrg.
  generalize (q_mine (buildQueries org)) (q_review (buildQueries org))
             (q_assigned (buildQueries org)).
  intros q1 q2 q3. rewrite bind_run. simpl Promise_all.
  destruct (fetchBucket_ids w q1 σ (Hs _)) as (l1 & H1 & I1).
  destruct (fetchBucket w q1 σ) as [σ1 r1]. simpl in H1. subst r1.
  destruct (fetchBucket_ids w q2 σ1 (Hs _)) as (l2 & H2 & I2).
  destruct (fetchBucket w q2 σ1) as [σ2 r2]. simpl in H2. subst r2.
  destruct (fetchBucket_ids w q3 σ2 (Hs _)) as (l3 & H3 & I3).
  destruct (fetchBucket w q3 σ2) as [σ3 r3]. simpl in H3. subst r3.
  simpl. eexists. split; [reflexivity|]. simpl. by split_and!.
Qed.

Lemma fetch_phase_ids w orgs σ :
  (∀ q, ∃ r, search w q 20 = Returned r) →
  ∃ rs, (Promise_all (fetchOrg w <$> orgs) σ).2 = Returned rs ∧
        id <$> (rs ≫= mine) =
          orgs ≫= (λ org, raw_id <$> found w (q_mine (buildQueries org))) ∧
        id <$> (rs ≫= review) =
          orgs ≫= (λ org, raw_id <$> found w (q_review (buildQueries org))) ∧
        id <$> (rs ≫= assigned) =
          orgs ≫= (λ org, raw_id <$> found w (q_assigned (buildQueries org))).
Proof.
  intros Hs. revert σ. induction orgs as [|org orgs IH]; intros σ.
  - exists []. by split_and!.
  - rewrite fmap_cons. simpl Promise_all.
    destruct (fetchOrg_ids w org σ Hs) as (b & Hb & Im & Ir & Ia).
    destruct (fetchOrg w org σ) as [σ1 r]. simpl in Hb. subst r.
    destruct (IH σ1) as (rs & Hrs & Jm & Jr & Ja).
    destruct (Promise_all (fetchOrg w <$> orgs) σ1) as [σ2 r]. simpl in Hrs. subst r.
    exists (b :: rs). split; [done|].
    rewrite !bind_cons, !fmap_app. by rewrite Im, Ir, Ia, Jm, Jr, Ja.
Qed.

(** X15. When GitHub answers every call, each bucket of the payload lists
    what its searches found, scope after scope and in the order GitHub
    returned it, each pull request once at its first place. *)
Theorem buckets_list_search_results w scopes σ :
  healthy w →
  ∃ b jobs,
    (build w scopes σ).2 = Returned (b, jobs) ∧
    id <$> mine b = Spec.first_occurrences
      (orgsToQuery scopes ≫= λ org, raw_id <$> found w (q_mine (buildQueries org))) ∧
    id <$> review b = Spec.first_occurrences
      (orgsToQuery scopes ≫= λ org, raw_id <$> found w (q_review (buildQueries org))) ∧
    id <$> assigned b = Spec.first_occurrences
      (orgsToQuery scopes ≫= λ org, raw_id <$> found w (q_assigned (buildQueries org))).
Proof.
  intros Hw. pose proof Hw as (Hs & _).
  destruct (fetch_phase_ids w (orgsToQuery scopes) σ) as (rs & Hrs & Jm & Jr & Ja).
  { intros q. apply Hs. }
  unfold build. rewrite bind_run.
  destruct (Promise_all (fetchOrg w <$> _) σ) as [σ1 r]. simpl in Hrs. subst r.
  rewrite bind_run.
  destruct (Promise_all_returns (attachJobs w <$> running (combine rs))) with (σ := σ1)
    as [us Hus].
  { intros p (pr & -> & _)%list_elem_of_fmap σ'. by apply attachJobs_healthy. }
  destruct (Promise_all (attachJobs w <$> _) σ1) as [σ2 r]. simpl in Hus. subst r.
  mrun. eexists _, _. split; [done|]. simpl.
  by rewrite !dedupe_ids, Jm, Jr, Ja.
Qed.

Lemma find_first {A} (f : A → bool) pre x post :
  Forall (λ y, f y = false) pre → f x = true →
  List.find f (pre ++ x :: post)%list = Some x.
Proof.
  induction 1 as [|y pre Hy _ IH]; intros Hx; simpl.
  - by rewrite Hx.
  - rewrite Hy. by apply IH.
Qed.

(** X16. The first matching run wins: for a pull request with a head
    commit, when the runs are listed and a run matches (by head commit or by
    pull-request number) with none matching before it, the jobs of that run
    are listed and attached, a job without a status counting as queued; no
    other object, and nothing of the cache, is touched. *)
Theorem attachJobs_first_match w pr σ pre run post jobs :
  truthy_opt (headSha pr) = true →
  workflow_runs w (repo_owner (repo pr)) (repo_name (repo pr))
    = Returned (pre ++ run :: post)%list →
  Forall (λ r, run_matches pr r = false) pre →
  run_matches pr run = true →
  workflow_jobs w (repo_owner (repo pr)) (repo_name (repo pr)) (run_id run)
    = Returned jobs →
  let r := attachJobs w pr σ in
  r.2 = Returned () ∧
  trace r.1 = (trace σ ++
                 [ListWorkflowRuns (repo_owner (repo pr)) (repo_name (repo pr));
                  ListJobs (repo_owner (repo pr)) (repo_name (repo pr)) (run_id run)])%list ∧
  jobs_of r.1 = <[addr pr := job_of <$> jobs]> (jobs_of σ) ∧
  kv r.1 = kv σ.
Proof.
  intros Hsha Hruns Hpre Hrun Hjobs. unfold attachJobs. rewrite Hsha. simpl. mrun.
  rewrite Hruns. mrun. rewrite (find_first _ pre run post Hpre Hrun). mrun.
  rewrite Hjobs. mrun. by rewrite <- app_assoc.
Qed.

(** X17. When the runs are listed and none matches, [attachJobs] stops
    after that one call and changes nothing else: the pull request is
    left without jobs. *)
Theorem attachJobs_no_match w pr σ runs :
  truthy_opt (headSha pr) = true →
  workflow_runs w (repo_owner (repo pr)) (repo_name (repo pr)) = Returned runs →
  Forall (λ r, run_matches pr r = false) runs →
  let r := attachJobs w pr σ in
  r.2 = Returned () ∧
  trace r.1 = (trace σ ++
                 [ListWorkflowRuns (repo_owner (repo pr)) (repo_name (repo pr))])%list ∧
  jobs_of r.1 = jobs_of σ ∧ kv r.1 = kv σ.
Proof.
  intros Hsha Hruns Hnone.
  assert (List.find (run_matches pr) runs = None) as Hfind.
  { clear Hruns. induction Hnone as [|y l Hy _ IH]; [done|]. simpl. by rewrite Hy. }
  unfold attachJobs. rewrite Hsha. simpl. mrun.
  rewrite Hruns. mrun. rewrite Hfind. by mrun.
Qed.

End overview_buckets.

Section overview_edges.
Import Overview.

(** X18. A pull request whose search node carries no commit is reported
    with no head commit, no rollup and no checks; it is never selected for
    enrichment, and [attachJobs] would return at once for it. *)
Theorem normalize_without_commit a (pr : RawPR) b w σ :
  raw_commits_nodes pr = None ∨ raw_commits_nodes pr = Some [] ∨
  (∃ rest, raw_commits_nodes pr = Some (None :: rest)) →
  let p := normalize a pr in
  headSha p = None ∧ rollup (status p) = None ∧ checks (status p) = [] ∧
  p ∉ running b ∧
  attachJobs w p σ = (σ, Returned ()).
Proof.
  intros Hc p.
  assert (headSha p = None ∧ rollup (status p) = None ∧ checks (status p) = [])
    as (Hsha & Hroll & Hchecks).
  { unfold p, normalize. simpl.
    by destruct Hc as [->|[->|[rest ->]]]. }
  split_and!; try done.
  - intros Hin. destruct (running_selection b) as (_ & _ & Hp & _).
    rewrite Forall_forall in Hp. apply Hp in Hin. by rewrite Hroll in Hin.
  - unfold attachJobs. by rewrite Hsha.
Qed.

End overview_edges.

(** ** The further properties on the sample inputs *)

Section more_samples.
Import Sample More.

Lemma issues_ties_sample :
  Linear.identifier <$>
    filter (λ i, Spec.rank i = 3 ∧
                 Date_getTime (Platform := platform) (Linear.updatedAt i)
                 = Some 1714557600000)
           (Linear.issues_of (H := platform) tied)
  = ["C"; "D"].
Proof.
  rewrite (issues_ties_keep_order (H := platform) tied 3 1714557600000).
  - reflexivity.
  - repeat constructor; eexists; reflexivity.
Defined.

Lemma GET_without_binding_sample :
  let r := Linear.GET (H := platform) None local_vars linear_up
             (fresh {[Linear.cacheKey := "{}"]}) in
  cache_calls (trace r.1) = [] ∧ kv r.1 = {[Linear.cacheKey := "{}"]}.
Proof.
  exact (GET_without_binding (H := platform) None local_vars linear_up
           (fresh {[Linear.cacheKey := "{}"]}) eq_refl).
Defined.

Lemma GET_catches_everything_sample :
  let r := Linear.GET (H := platform) linear_env no_vars linear_unreachable (fresh ∅) in
  r.2 = Returned (Linear.error_response (H := platform) (JsError "fetch failed")) ∧
  kv r.1 = ∅.
Proof.
  apply (GET_catches_everything (H := platform) linear_env no_vars
           linear_unreachable (fresh ∅) (JsError "fetch failed")).
  - reflexivity.
  - intros _. reflexivity.
  - left. reflexivity.
Defined.

Lemma GET_miss_then_hit_sample :
  let first := Linear.GET (H := platform) linear_env no_vars linear_up (fresh ∅) in
  let second := Linear.GET (H := platform) linear_env no_vars linear_down first.1 in
  second.2 = Returned (Linear.hit_response (Linear.payload (H := platform) T3 nodes)) ∧
  trace second.1 = (trace first.1 ++ [KvGet Linear.cacheKey])%list.
Proof.
  destruct (GET_miss_then_hit (H := platform) linear_env no_vars linear_up
              linear_down (fresh ∅) nodes) as (_ & Hs & Ht & _).
  - reflexivity.
  - reflexivity.
  - reflexivity.
  - eexists _, _. split_and!; reflexivity.
  - reflexivity.
  - split; [exact Hs|exact Ht].
Defined.


Lemma cacheKey_collisions_sample :
  Overview.scopeOrgs (overview_env None) = Overview.scopeOrgs (overview_env (Some "all")) ∨
  (Overview.scopeOrgs (overview_env None) = [] ∧
   Overview.scopeOrgs (overview_env (Some "all")) = ["all"]) ∨
  (Overview.scopeOrgs (overview_env None) = ["all"] ∧
   Overview.scopeOrgs (overview_env (Some "all")) = []).
Proof.
  apply (cacheKey_collisions (overview_env None) (overview_env (Some "all"))).
  reflexivity.
Defined.

Lemma dedupe_fixed_point_sample :
  Overview.dedupe [Overview.normalize 0 pr5; Overview.normalize 1 pr6]
  = [Overview.normalize 0 pr5; Overview.normalize 1 pr6].
Proof.
  apply (proj1 (dedupe_fixed_point
                  [Overview.normalize 0 pr5; Overview.normalize 1 pr6])).
  apply (bool_decide_unpack _). reflexivity.
Defined.

Lemma onRequest_without_binding_sample :
  let r := Overview.onRequest (H := platform) overview_env_no_cache github_up
             (fresh {["overview:all" := print cached_overview]}) in
  cache_calls (trace r.1) = [] ∧
  kv r.1 = {["overview:all" := print cached_overview]}.
Proof.
  exact (onRequest_without_binding (H := platform) overview_env_no_cache github_up
           (fresh {["overview:all" := print cached_overview]}) eq_refl).
Defined.

Lemma onRequest_miss_then_hit_sample :
  let first := Overview.onRequest (H := platform) (overview_env None) github_quiet
                 (fresh ∅) in
  let second := Overview.onRequest (H := platform) (overview_env None) github_down
                  first.1 in
  second.2 = Returned (Overview.okJSON (H := platform) cached_overview
                         [("x-cache", "HIT")]) ∧
  trace second.1 = (trace first.1 ++ [KvGet "overview:all"])%list.
Proof.
  destruct (onRequest_miss_then_hit (H := platform) (overview_env None)
              github_quiet github_down (fresh ∅) cached_overview)
    as (Hs & Ht & _); [reflexivity..|].
  split; [exact Hs|exact Ht].
Defined.

Lemma jobs_only_on_selected_sample :
  (∀ a, is_Some (built_jobs !! a) →
        ∃ pr, pr ∈ Overview.running built_buckets ∧ Overview.addr pr = a ∧
              Overview.rollup (Overview.status pr) = Some "PENDING" ∧
              truthy_opt (Overview.headSha pr) = true) ∧
  (size built_jobs ≤ 8)%nat.
Proof.
  apply (jobs_only_on_selected github_up [] (fresh ∅) built_buckets built_jobs);
    reflexivity.
Defined.

Lemma enrichment_failure_sample :
  let r := Overview.fetch_and_store (H := platform) github_runs_down [] true
             "overview:all" (Some 90) (fresh ∅) in
  (∃ e, r.2 = Threw e) ∧ kv r.1 = ∅.
Proof.
  apply (enrichment_failure_rejects (H := platform) github_runs_down [] (fresh ∅)
           searched.1 searched_results pr5_mine true "overview:all" (Some 90)).
  - reflexivity.
  - apply list_elem_of_lookup. exists 0%nat. reflexivity.
  - reflexivity.
  - left. eexists. reflexivity.
Defined.

Lemma buckets_list_search_results_sample :
  ∃ b jobs,
    (Overview.build github_up [] (fresh ∅)).2 = Returned (b, jobs) ∧
    Overview.id <$> Overview.mine b = ["PR_5"; "PR_6"] ∧
    Overview.id <$> Overview.review b = ["PR_5"] ∧
    Overview.id <$> Overview.assigned b = [].
Proof.
  destruct (buckets_list_search_results github_up [] (fresh ∅) github_up_healthy)
    as (b & jobs & Hb & Hm & Hr & Ha).
  exists b, jobs. split_and!; [exact Hb|exact Hm|exact Hr|exact Ha].
Defined.

Lemma attachJobs_first_match_sample :
  let r := Overview.attachJobs github_up pr5_mine (fresh ∅) in
  r.2 = Returned () ∧
  trace r.1 = [ListWorkflowRuns "acme" "app"; ListJobs "acme" "app" 77] ∧
  jobs_of r.1 = {[0%nat := [Overview.job_of job77]]} ∧
  kv r.1 = ∅.
Proof.
  apply (attachJobs_first_match github_up pr5_mine (fresh ∅) [] run77 [] [job77]);
    try reflexivity.
  constructor.
Defined.

Lemma attachJobs_no_match_sample :
  let r := Overview.attachJobs github_other_runs pr5_mine (fresh ∅) in
  r.2 = Returned () ∧
  trace r.1 = [ListWorkflowRuns "acme" "app"] ∧
  jobs_of r.1 = ∅ ∧ kv r.1 = ∅.
Proof.
  apply (attachJobs_no_match github_other_runs pr5_mine (fresh ∅) [other_run]);
    try reflexivity.
  repeat constructor.
Defined.

Lemma normalize_without_commit_sample :
  let p := Overview.normalize 3 pr8 in
  Overview.headSha p = None ∧ Overview.rollup (Overview.status p) = None ∧
  Overview.checks (Overview.status p) = [] ∧
  p ∉ Overview.running built_buckets ∧
  Overview.attachJobs github_up p (fresh ∅) = (fresh ∅, Returned ()).
Proof.
  apply (normalize_without_commit 3 pr8 built_buckets github_up (fresh ∅)).
  right. left. reflexivity.
Defined.

End more_samples.
